(** * SoundCloudDJCollectionTracker: catalog reconciliation and edit-merge

    A shallow embedding of the two Python sources of the repository:

    - [soundcloud_flow.py]: [has_non_default_purchase_url],
      [is_track_processed], [add_track] and [create_new_df], the
      reconciliation pass that rebuilds the catalog from the remote
      collections and the owned fields of the previous catalog;
    - [djapp.py]: [EditTrackModal.on_button_pressed], [_get_track_row],
      [_open_editor_for_track], [_apply_track_edits] and [_in_playlist],
      the edit path and the playlist filter of the terminal application.

    Conventions of the embedding.

    - A Python [str] is a Rocq [string]; each [ascii] stands for one code
      point below 256.
    - [None] of Python (a JSON null, a missing dict key read with [.get], a
      null cell of a dataframe) is [None] of [option].
    - A Python [float] is a primitive binary64 [float].
    - A raised exception is the [Raise] outcome of the [result] monad; a
      function that mutates a dict or [self] takes the old value and
      returns the new one.
    - HTTP, OAuth, the parquet encoding and the widgets are outside the
      model: what they deliver is an argument of the embedded function. *)

From Stdlib Require Import String Ascii List Bool Arith.
From Stdlib Require Import Floats.PrimFloat.
From stdpp Require Import base option list gmap strings.

Set Warnings "-inexact-float".

(** ** Python outcomes *)

Inductive exn : Type :=
| KeyError (key : string).

Inductive result (A : Type) : Type :=
| Ok (a : A)
| Raise (e : exn).
Arguments Ok {A} a.
Arguments Raise {A} e.

Definition bind {A B : Type} (m : result A) (k : A -> result B) : result B :=
  match m with
  | Ok a => k a
  | Raise e => Raise e
  end.

Notation "x <- m ;; k" := (bind m (fun x => k))
  (at level 100, m at next level, right associativity).

(** [d[key]] on a dict built from JSON: [KeyError] when the key is absent. *)
Definition getitem {A : Type} (key : string) (field : option A) : result A :=
  match field with
  | Some a => Ok a
  | None => Raise (KeyError key)
  end.

(** [for x in l: body(x)] over a state, stopping at the first exception. *)
Fixpoint for_each {A S : Type} (body : A -> S -> result S) (l : list A) (s : S)
  : result S :=
  match l with
  | [] => Ok s
  | x :: l' => s' <- body x s ;; for_each body l' s'
  end.

(** ** Python string operations *)

(** [str.isspace] on the code points below 256: TAB..CR, FS..US, SPACE,
    NEL and NBSP. *)
Definition isspace (c : ascii) : bool :=
  let n := nat_of_ascii c in
  (((9 <=? n) && (n <=? 13)) || ((28 <=? n) && (n <=? 32))
   || (n =? 133) || (n =? 160))%nat.

Fixpoint lstrip (s : string) : string :=
  match s with
  | EmptyString => EmptyString
  | String c s' => if isspace c then lstrip s' else s
  end.

Fixpoint rstrip (s : string) : string :=
  match s with
  | EmptyString => EmptyString
  | String c s' =>
      match rstrip s' with
      | EmptyString => if isspace c then EmptyString else String c EmptyString
      | r => String c r
      end
  end.

(** [s.strip()] *)
Definition strip (s : string) : string := rstrip (lstrip s).

(** [needle in hay] on two [str]: the substring test. *)
Fixpoint contains (needle hay : string) : bool :=
  String.prefix needle hay
  || match hay with
     | EmptyString => false
     | String _ hay' => contains needle hay'
     end.

(** ** Data model *)

(** A remote track: the dict decoded from the JSON of the remote API.
    [r_kind] and [r_id] are read with [track[...]] and are [None] when the
    key is absent; the others are read with [.get]. *)
Record User : Type := mkUser { username : option string }.

Record RemoteTrack : Type := mkRemoteTrack {
  r_kind : option string;
  r_id : option string;
  r_title : option string;
  r_purchase_url : option string;
  r_permalink_url : option string;
  r_user : option User;
  r_genre : option string
}.

(** A remote playlist: [playlist["title"]] and [playlist["tracks"]]. *)
Record Playlist : Type := mkPlaylist {
  pl_title : string;
  pl_tracks : list RemoteTrack
}.

(** A catalog record: one value of [all_tracks], one row of the dataframe. *)
Record Track : Type := mkTrack {
  t_title : option string;
  t_id : string;
  t_purchase_url : option string;
  t_purchased : option bool;
  t_price : option float;
  t_processed : option bool;
  t_soundcloud_url : option string;
  t_playlists : string;
  t_artist : option string;
  t_genre : option string
}.

(** A value of [old_tracks]: the owned fields kept from the previous catalog. *)
Record Owned : Type := mkOwned {
  o_price : option float;
  o_purchased : option bool;
  o_purchase_url : option string
}.

(** A Python dict with [str] keys, which enumerates in insertion order
    ([all_tracks]; also the schema of a dataframe, column name to dtype). *)
Abbreviation dict V := (list (string * V)).

Fixpoint dict_get {V : Type} (k : string) (d : dict V) : option V :=
  match d with
  | [] => None
  | (k', v) :: d' => if decide (k' = k) then Some v else dict_get k d'
  end.

(** [d[k] = v]: replaces in place when the key is there, appends otherwise. *)
Fixpoint dict_set {V : Type} (k : string) (v : V) (d : dict V) : dict V :=
  match d with
  | [] => [(k, v)]
  | (k', v') :: d' =>
      if decide (k' = k) then (k', v) :: d' else (k', v') :: dict_set k v d'
  end.

(** [list(d.keys())] and [list(d.values())] *)
Definition keys {V : Type} (d : dict V) : list string := fst <$> d.
Definition values {V : Type} (d : dict V) : list V := snd <$> d.

(** ** soundcloud_flow.py *)

Definition has_non_default_purchase_url (purchase_url : option string) : bool :=
  match purchase_url with
  | None => false
  | Some u => negb (String.eqb (strip u) "")
  end.

Definition is_track_processed (price : option float)
  (purchase_url : option string) : bool :=
  match price with
  | None => false
  | Some _ => has_non_default_purchase_url purchase_url
  end.

(** [all_tracks[track_id]["playlists"] += suffix] *)
Definition append_playlists (suffix : string) (t : Track) : Track :=
  mkTrack (t_title t) (t_id t) (t_purchase_url t) (t_purchased t) (t_price t)
    (t_processed t) (t_soundcloud_url t) (t_playlists t +:+ suffix)
    (t_artist t) (t_genre t).

Definition add_track (track : RemoteTrack) (all_tracks : dict Track)
  (old_tracks : gmap string Owned) (playlist_name : option string)
  : result (dict Track) :=
  kind <- getitem "kind" (r_kind track) ;;
  if negb (String.eqb kind "track") then Ok all_tracks else
  track_id <- getitem "id" (r_id track) ;;
  let track_purchase_url := r_purchase_url track in
  let track_title := r_title track in
  let soundcloud_url := r_permalink_url track in
  let artist_name :=
    match r_user track with Some u => username u | None => None end in
  let track_genre := r_genre track in
  let '(track_purchased, track_price, track_purchase_url) :=
    match old_tracks !! track_id with
    | Some o => (o_purchased o, o_price o, o_purchase_url o)
    | None => (Some false, None, track_purchase_url)
    end in
  let track_processed := is_track_processed track_price track_purchase_url in
  match dict_get track_id all_tracks with
  | Some cur =>
      match playlist_name with
      | None =>
          if negb (contains "liked" (t_playlists cur))
          then Ok (dict_set track_id (append_playlists ", liked" cur) all_tracks)
          else Ok all_tracks
      | Some name =>
          if negb (contains name (t_playlists cur))
          then Ok (dict_set track_id
                     (append_playlists (", " +:+ name) cur) all_tracks)
          else Ok all_tracks
      end
  | None =>
      Ok (dict_set track_id
            (mkTrack track_title track_id track_purchase_url track_purchased
               track_price (Some track_processed) soundcloud_url "liked"
               artist_name track_genre)
            all_tracks)
  end.

(** The owned fields [add_track] settles on for [track_id], and the record
    it creates from them. *)
Definition owned_fields (old_tracks : gmap string Owned) (track_id : string)
  (track_purchase_url : option string) : Owned :=
  match old_tracks !! track_id with
  | Some o => mkOwned (o_price o) (o_purchased o) (o_purchase_url o)
  | None => mkOwned None (Some false) track_purchase_url
  end.

Definition new_track (track : RemoteTrack) (track_id : string)
  (old_tracks : gmap string Owned) : Track :=
  let o := owned_fields old_tracks track_id (r_purchase_url track) in
  mkTrack (r_title track) track_id (o_purchase_url o) (o_purchased o)
    (o_price o) (Some (is_track_processed (o_price o) (o_purchase_url o)))
    (r_permalink_url track) "liked"
    match r_user track with Some u => username u | None => None end
    (r_genre track).

(** The test of the first loop of [create_new_df]:
    [track_price is None and track_downloaded is False and not
    has_non_default_purchase_url(track_purchase_url)]. *)
Definition all_default (o : Owned) : bool :=
  match o_price o, o_purchased o with
  | None, Some false => negb (has_non_default_purchase_url (o_purchase_url o))
  | _, _ => false
  end.

Definition owned_of (row : Track) : Owned :=
  mkOwned (t_price row) (t_purchased row) (t_purchase_url row).

(** The first loop of [create_new_df], body and loop: [old_tracks] keeps
    the owned fields of the rows of the previous catalog that are not all
    at their default. *)
Definition load_row (old_tracks : gmap string Owned) (row : Track)
  : gmap string Owned :=
  if all_default (owned_of row) then old_tracks
  else <[t_id row := owned_of row]> old_tracks.

Definition load_old_tracks (old_df : list Track) : gmap string Owned :=
  fold_left load_row old_df ∅.

(** [create_new_df]. [old_df] is the parquet file when it exists;
    [liked_pages] are the collections the first [while] loop iterates over
    and [playlist_pages] those of the second. The result is the list of rows
    handed to [pl.DataFrame] and written to the file. *)
Definition create_new_df (old_df : option (list Track))
  (liked_pages : list (list RemoteTrack))
  (playlist_pages : list (list Playlist)) : result (list Track) :=
  let old_tracks :=
    match old_df with
    | Some rows => load_old_tracks rows
    | None => ∅
    end in
  let all_tracks : dict Track := [] in
  all_tracks <-
    for_each
      (fun page all_tracks =>
         for_each (fun track all_tracks =>
                     add_track track all_tracks old_tracks None)
           page all_tracks)
      liked_pages all_tracks ;;
  all_tracks <-
    for_each
      (fun page all_tracks =>
         for_each
           (fun playlist all_tracks =>
              let playlist_name := pl_title playlist in
              for_each (fun track all_tracks =>
                          add_track track all_tracks old_tracks
                            (Some playlist_name))
                (pl_tracks playlist) all_tracks)
           page all_tracks)
      playlist_pages all_tracks ;;
  Ok (values all_tracks).

(** The remote records in the order [create_new_df] hands them to
    [add_track], each with the [playlist_name] of its call. *)
Definition observations (liked_pages : list (list RemoteTrack))
  (playlist_pages : list (list Playlist))
  : list (option string * RemoteTrack) :=
  (pair None <$> concat liked_pages)
  ++ concat ((fun playlist =>
                pair (Some (pl_title playlist)) <$> pl_tracks playlist)
             <$> concat playlist_pages).

Definition add_tracks (old_tracks : gmap string Owned)
  (obs : list (option string * RemoteTrack)) (all_tracks : dict Track)
  : result (dict Track) :=
  for_each (fun o all_tracks => add_track (snd o) all_tracks old_tracks (fst o))
    obs all_tracks.

(** ** djapp.py *)

(** Polars dtypes of the columns the application inspects. *)
Inductive dtype : Type := Null | Float64 | Utf8 | Boolean.

Global Instance dtype_eq_dec : EqDecision dtype.
Proof. solve_decision. Defined.

(** [self.df]: the schema (column name to dtype, in column order) and the
    rows. A cell of a column the schema does not have reads as [None], as
    [row.get] does. *)
Record DataFrame : Type := mkDataFrame {
  schema : dict dtype;
  rows : list Track
}.

Definition columns (df : DataFrame) : list string := keys (schema df).

(** [df.schema.get(name, default)] *)
Definition schema_get (name : string) (default : dtype) (df : DataFrame)
  : dtype :=
  match dict_get name (schema df) with
  | Some d => d
  | None => default
  end.

(** [name in df.columns] *)
Definition has_column (name : string) (df : DataFrame) : bool :=
  bool_decide (name ∈ columns df).

(** [df.with_columns(expr.alias(name))], the expression given by its dtype
    and by what it does to each row. *)
Definition with_column (name : string) (d : dtype) (f : Track -> Track)
  (df : DataFrame) : DataFrame :=
  mkDataFrame (dict_set name d (schema df)) (f <$> rows df).

Definition set_purchase_url (u : option string) (t : Track) : Track :=
  mkTrack (t_title t) (t_id t) u (t_purchased t) (t_price t) (t_processed t)
    (t_soundcloud_url t) (t_playlists t) (t_artist t) (t_genre t).

Definition set_processed (b : option bool) (t : Track) : Track :=
  mkTrack (t_title t) (t_id t) (t_purchase_url t) (t_purchased t) (t_price t)
    b (t_soundcloud_url t) (t_playlists t) (t_artist t) (t_genre t).

(** [fill_null(False)] on a boolean cell. *)
Definition fill_null_false (b : option bool) : option bool :=
  Some match b with Some v => v | None => false end.

(** The modal screen pushed by [_open_editor_for_track], by the arguments
    of its constructor. *)
Record EditTrackModal : Type := mkEditTrackModal {
  m_track_id : string;
  m_purchased : bool;
  m_price : option float;
  m_download_url : option string;
  m_track_title : option string
}.

(** The application: the dataframe in memory, the parquet file at
    [TRACKS_PATH] and the stack of pushed screens. *)
Record DJApp : Type := mkDJApp {
  df : DataFrame;
  tracks_file : DataFrame;
  screens : list EditTrackModal
}.

Definition _get_track_row (self : DJApp) (track_id : string) : option Track :=
  let matching :=
    filter (fun row => t_id row = track_id) (rows (df self)) in
  match matching with
  | [] => None
  | row :: _ => Some row
  end.

Definition _open_editor_for_track (self : DJApp) (track_id : string)
  : result DJApp :=
  match _get_track_row self track_id with
  | None => Ok self
  | Some row =>
      let purchased :=
        match t_purchased row with Some b => b | None => false end in
      let price := t_price row in
      let download_url := t_purchase_url row in
      let track_title := t_title row in
      Ok (mkDJApp (df self) (tracks_file self)
            (mkEditTrackModal track_id purchased price download_url track_title
             :: screens self))
  end.

(** The four [pl.when(id == track_id).then(..).otherwise(..)] columns of
    [_apply_track_edits], row by row. *)
Definition edit_row (track_id : string) (purchased : bool)
  (price : option float) (download_url : option string) (row : Track) : Track :=
  if bool_decide (t_id row = track_id) then
    let processed_value :=
      match price, download_url with
      | Some _, Some _ => true
      | _, _ => false
      end in
    mkTrack (t_title row) (t_id row) download_url (Some purchased) price
      (Some processed_value) (t_soundcloud_url row) (t_playlists row)
      (t_artist row) (t_genre row)
  else set_processed (fill_null_false (t_processed row)) row.

(** [_apply_track_edits], on a catalog that has the [id], [purchased] and
    [price] columns ([create_new_df] always writes them) with [price] of
    dtype [Float64] or [Null]. Of the four columns the last [with_columns]
    rewrites, [purchased], [price] and [purchase_url] keep the dtype they
    have by then and [processed] is cast to [Boolean]. [write_parquet]
    stores the dataframe in the file; the table and counter widgets
    refreshed at the end are not part of the state. *)
Definition _apply_track_edits (self : DJApp) (track_id : string)
  (result : option (bool * option float * option string)) : DJApp :=
  match result with
  | None => self
  | Some (purchased, price, download_url) =>
      let df0 := df self in
      let price_dtype := schema_get "price" Float64 df0 in
      let df1 :=
        if decide (price_dtype = Null)
        then with_column "price" Float64 (fun row => row) df0
        else df0 in
      let df2 :=
        if negb (has_column "purchase_url" df1)
        then with_column "purchase_url" Utf8 (set_purchase_url None) df1
        else df1 in
      let df3 :=
        if negb (has_column "processed" df2)
        then with_column "processed" Boolean (set_processed (Some false)) df2
        else df2 in
      let purchase_url_dtype := schema_get "purchase_url" Utf8 df3 in
      let df4 :=
        if decide (purchase_url_dtype = Null)
        then with_column "purchase_url" Utf8 (fun row => row) df3
        else df3 in
      let df5 :=
        with_column "processed" Boolean
          (edit_row track_id purchased price download_url) df4 in
      mkDJApp df5 df5 (screens self)
  end.

(** [_in_playlist] of [DJApp]: the exact-match membership test of the
    playlist filter on the comma-separated [playlists] cell. *)
Definition ALL_PLAYLISTS : string := "__all__".

(** [s.split(sep)] for a one-character separator. *)
Fixpoint split (sep : ascii) (s : string) : list string :=
  match s with
  | EmptyString => [EmptyString]
  | String c s' =>
      if decide (c = sep) then EmptyString :: split sep s'
      else match split sep s' with
           | [] => [String c EmptyString]
           | w :: ws => String c w :: ws
           end
  end.

Definition _in_playlist (playlists_value : option string)
  (selected_playlist : string) : bool :=
  if decide (selected_playlist = ALL_PLAYLISTS) then true else
  match playlists_value with
  | None => false
  | Some playlists =>
      bool_decide
        (selected_playlist ∈
           strip <$> filter (fun name => strip name ≠ "") (split "," playlists))
  end.

(** The save and cancel buttons of [EditTrackModal.on_button_pressed].
    [float_of_string] is Python's [float(text)], [None] for a [ValueError].
    The result is the value the screen is dismissed with, that is the
    [result] argument of [_apply_track_edits]; the outer [None] stands for
    a screen that stays open. *)
Section EditTrackModal.
Variable float_of_string : string -> option float.

Definition on_button_pressed (button_id : string) (purchased : bool)
  (price_input download_url_input : string)
  : option (option (bool * option float * option string)) :=
  if decide (button_id = "edit-cancel") then Some None else
  if decide (button_id ≠ "edit-save") then None else
  let price_text := strip price_input in
  let download_url_text := strip download_url_input in
  let download_url :=
    if decide (download_url_text = "") then None
    else Some download_url_text in
  if decide (price_text = "") then Some (Some (purchased, None, download_url))
  else
    match float_of_string price_text with
    | Some parsed_price => Some (Some (purchased, Some parsed_price, download_url))
    | None => None
    end.
End EditTrackModal.

(** ** Vocabulary of the properties *)

(** The rule of the derived column on one record. *)
Definition processed_ok (r : Track) : Prop :=
  t_processed r = Some (is_track_processed (t_price r) (t_purchase_url r)).

(** A purchase URL as the edit dialog hands it over: null, or a text with
    something other than whitespace in it. *)
Definition normalised (purchase_url : option string) : Prop :=
  purchase_url = None ∨ has_non_default_purchase_url purchase_url = true.

(** The observation is a record of track kind with identifier [i]. *)
Definition observes (i : string) (o : option string * RemoteTrack) : bool :=
  bool_decide (r_kind (snd o) = Some "track" ∧ r_id (snd o) = Some i).

(** The first observation of [i] in a pass. *)
Definition first_observation (i : string)
  (obs : list (option string * RemoteTrack))
  : option (option string * RemoteTrack) :=
  List.find (observes i) obs.

(** The cells of a column the schema does not have are null. *)
Definition absent_cells_null (d : DataFrame) : Prop :=
  (has_column "purchase_url" d = false ->
   Forall (fun r => t_purchase_url r = None) (rows d))
  ∧ (has_column "processed" d = false ->
     Forall (fun r => t_processed r = None) (rows d)).

(** What the loops of [create_new_df] keep true of [all_tracks]: no key
    twice, and each record under the key that is its [id]. *)
Definition dict_ok (all_tracks : dict Track) : Prop :=
  NoDup (keys all_tracks)
  ∧ forall k v, dict_get k all_tracks = Some v -> t_id v = k.

(** A catalog written by a reconciliation pass. *)
Definition reconciled (catalog : list Track) : Prop :=
  ∃ old_df liked_pages playlist_pages,
    create_new_df old_df liked_pages playlist_pages = Ok catalog.

(** A catalog left by an edit-merge whose URL argument is as the dialog
    hands it over, applied to a catalog on which the rule held. *)
Definition edited (catalog : list Track) : Prop :=
  ∃ self track_id purchased price purchase_url,
    Forall processed_ok (rows (df self))
    ∧ absent_cells_null (df self)
    ∧ normalised purchase_url
    ∧ catalog
      = rows (df (_apply_track_edits self track_id
                    (Some (purchased, price, purchase_url)))).

(** ** Sample data *)

Definition sample_track (i : string) (purchase_url : option string)
  : RemoteTrack :=
  mkRemoteTrack (Some "track") (Some i) (Some "Night Drive") purchase_url
    (Some "https://soundcloud.com/dj/night-drive")
    (Some (mkUser (Some "dj"))) (Some "house").

Definition sample_row (i : string) (purchased : bool) (price : option float)
  (purchase_url : option string) (playlists : string) : Track :=
  mkTrack (Some "Night Drive") i purchase_url (Some purchased) price
    (Some (is_track_processed price purchase_url))
    (Some "https://soundcloud.com/dj/night-drive") playlists
    (Some "dj") (Some "house").

(** The record [X] of the owned-field example, and a record with nothing
    owned. *)
Definition sample_prior : list Track :=
  [sample_row "X" true (Some 9.99%float) (Some "u") "liked, Deep House";
   sample_row "Y" false None (Some "") "liked"].

Definition sample_schema : dict dtype :=
  [("title", Utf8); ("id", Utf8); ("purchase_url", Utf8);
   ("purchased", Boolean); ("price", Float64); ("processed", Boolean);
   ("soundcloud_url", Utf8); ("playlists", Utf8); ("artist", Utf8);
   ("genre", Utf8)].

Definition sample_app : DJApp :=
  let d := mkDataFrame sample_schema sample_prior in mkDJApp d d [].

(** A remote record of track kind with no [id] key. *)
Definition track_without_id : RemoteTrack :=
  mkRemoteTrack (Some "track") None (Some "Untitled") None None None None.

(** The owned-field view of a catalog: what the first loop of
    [create_new_df] reads of each row. *)
Definition owned_view (rows : list Track) : list (string * Owned) :=
  (fun row => (t_id row, owned_of row)) <$> rows.

(** What an edit-merge of [track_id] does to a row [a], giving [b]: the
    fields that are not owned stay; on the target the owned fields are the
    arguments and [processed] is true exactly when a price and a URL are
    both given (not null), which is the rule of the derived column when
    the URL is as the dialog hands it over; on any other row the owned
    fields stay and [processed] stays but for a null, which becomes
    false. *)
Definition edit_frame (track_id : string) (purchased : bool)
  (price : option float) (purchase_url : option string) (a b : Track) : Prop :=
  t_id b = t_id a ∧ t_title b = t_title a ∧ t_artist b = t_artist a
  ∧ t_genre b = t_genre a ∧ t_playlists b = t_playlists a
  ∧ t_soundcloud_url b = t_soundcloud_url a
  ∧ (t_id a = track_id ->
     t_purchased b = Some purchased ∧ t_price b = price
     ∧ t_purchase_url b = purchase_url
     ∧ t_processed b
       = Some (bool_decide (is_Some price ∧ is_Some purchase_url))
     ∧ (normalised purchase_url -> processed_ok b))
  ∧ (t_id a ≠ track_id ->
     t_purchased b = t_purchased a ∧ t_price b = t_price a
     ∧ t_purchase_url b = t_purchase_url a
     ∧ t_processed b = fill_null_false (t_processed a)).

(** A catalog in which the second record has a null [processed] cell. *)
Definition sample_null_processed_app : DJApp :=
  let d :=
    mkDataFrame sample_schema
      [sample_row "A" false None None "liked";
       set_processed None (sample_row "B" true (Some 4.5%float) (Some "u") "liked")]
  in mkDJApp d d [].

(** A catalog as a first pass writes it when no track has a price yet:
    the [price] column is all null and has dtype [Null]. *)
Definition sample_fresh_app : DJApp :=
  let d :=
    mkDataFrame
      [("title", Utf8); ("id", Utf8); ("purchase_url", Utf8);
       ("purchased", Boolean); ("price", Null); ("processed", Boolean);
       ("soundcloud_url", Utf8); ("playlists", Utf8); ("artist", Utf8);
       ("genre", Utf8)]
      [sample_row "Y" false None None "liked"]
  in mkDJApp d d [].

(** ** The rest of the edit and filter path of djapp.py *)

(** [self.dismiss(..)]: the screen on top of the stack is popped. *)
Definition pop_screen (self : DJApp) : DJApp :=
  mkDJApp (df self) (tracks_file self) (tail (screens self)).

(** A button of the dialog that [_open_editor_for_track] pushed with
    [push_screen(EditTrackModal(..), callback)], [self] being the
    application with that screen on top of its stack: when the dialog
    dismisses itself the screen is popped and the callback
    [_apply_track_edits(track_id, result)] runs; otherwise the screen
    stays where it is and nothing runs. *)
Definition edit_dialog (float_of_string : string -> option float)
  (self : DJApp) (track_id button_id : string) (purchased : bool)
  (price_input download_url_input : string) : DJApp :=
  match on_button_pressed float_of_string button_id purchased price_input
          download_url_input with
  | Some result => _apply_track_edits (pop_screen self) track_id result
  | None => self
  end.

(** The application with the editor of [X] open on [sample_app]. *)
Definition sample_editing_app : DJApp :=
  mkDJApp (df sample_app) (tracks_file sample_app)
    [mkEditTrackModal "X" true (Some 9.99%float) (Some "u")
       (Some "Night Drive")].

(** The part of [_apply_track_edits] before the four edited columns: the
    casts of a [Null] column and the columns added when missing. *)
Definition prepare_frame (df0 : DataFrame) : DataFrame :=
  let price_dtype := schema_get "price" Float64 df0 in
  let df1 :=
    if decide (price_dtype = Null)
    then with_column "price" Float64 (fun row => row) df0
    else df0 in
  let df2 :=
    if negb (has_column "purchase_url" df1)
    then with_column "purchase_url" Utf8 (set_purchase_url None) df1
    else df1 in
  let df3 :=
    if negb (has_column "processed" df2)
    then with_column "processed" Boolean (set_processed (Some false)) df2
    else df2 in
  let purchase_url_dtype := schema_get "purchase_url" Utf8 df3 in
  if decide (purchase_url_dtype = Null)
  then with_column "purchase_url" Utf8 (fun row => row) df3
  else df3.

(** [_ensure_processed_column]. [is_whitespace] tells the characters that
    Polars' [str.strip_chars()] removes at both ends. *)
Section Polars.
Variable is_whitespace : ascii -> bool.

Fixpoint lstrip_chars (s : string) : string :=
  match s with
  | EmptyString => EmptyString
  | String c s' => if is_whitespace c then lstrip_chars s' else s
  end.

Fixpoint rstrip_chars (s : string) : string :=
  match s with
  | EmptyString => EmptyString
  | String c s' =>
      match rstrip_chars s' with
      | EmptyString =>
          if is_whitespace c then EmptyString else String c EmptyString
      | r => String c r
      end
  end.

Definition strip_chars (s : string) : string := rstrip_chars (lstrip_chars s).

(** [processed_expr], on one row. *)
Definition processed_expr (d : DataFrame) (row : Track) : bool :=
  let price_expr := if has_column "price" d then t_price row else None in
  let purchase_url_expr :=
    if has_column "purchase_url" d then
      let filled :=
        match t_purchase_url row with Some u => u | None => "" end in
      (0 <? String.length (strip_chars filled))%nat
    else false in
  match price_expr with Some _ => true | None => false end
  && purchase_url_expr.

Definition _ensure_processed_column (self : DJApp) (persist_if_missing : bool)
  : DJApp :=
  let had_processed := has_column "processed" (df self) in
  let d :=
    with_column "processed" Boolean
      (fun row => set_processed (Some (processed_expr (df self) row)) row)
      (df self) in
  mkDJApp d
    (if persist_if_missing && negb had_processed then d else tracks_file self)
    (screens self).
End Polars.

(** The filter constants of [DJApp]. *)
Definition ALL_PURCHASED : string := "__all_purchased__".
Definition PURCHASED_TRUE : string := "true".
Definition PURCHASED_FALSE : string := "false".
Definition ALL_PROCESSED : string := "__all_processed__".
Definition PROCESSED_TRUE : string := "processed_true".
Definition PROCESSED_FALSE : string := "processed_false".

(** [bool(value)] on a boolean cell, null being falsy. *)
Definition truthy (value : option bool) : bool :=
  match value with Some b => b | None => false end.

Definition _matches_purchased (purchased_value : option bool)
  (selected_purchased : string) : bool :=
  if decide (selected_purchased = ALL_PURCHASED) then true else
  let is_purchased := truthy purchased_value in
  if decide (selected_purchased = PURCHASED_TRUE) then is_purchased else
  if decide (selected_purchased = PURCHASED_FALSE) then negb is_purchased else
  true.

Definition _matches_processed (processed_value : option bool)
  (selected_processed : string) : bool :=
  if decide (selected_processed = ALL_PROCESSED) then true else
  let is_processed := truthy processed_value in
  if decide (selected_processed = PROCESSED_TRUE) then is_processed else
  if decide (selected_processed = PROCESSED_FALSE) then negb is_processed else
  true.

(** [str.lower] on the code points below 256: the letters A..Z and the
    accented capitals U+00C0..U+00DE but the multiplication sign go down
    by 32. *)
Definition lower_char (c : ascii) : ascii :=
  let n := nat_of_ascii c in
  if (((65 <=? n) && (n <=? 90)) || ((192 <=? n) && (n <=? 214))
      || ((216 <=? n) && (n <=? 222)))%nat
  then ascii_of_nat (n + 32) else c.

Fixpoint lower (s : string) : string :=
  match s with
  | EmptyString => EmptyString
  | String c s' => String (lower_char c) (lower s')
  end.

Definition _matches_track_name (track_title : option string) (query : string)
  : bool :=
  let normalized_query := lower (strip query) in
  if decide (normalized_query = "") then true else
  match track_title with
  | None => false
  | Some title => contains normalized_query (lower title)
  end.

(** The filters in force: [current_playlist], [current_purchased],
    [current_processed] and [track_name_query] of [DJApp]. *)
Record Filters : Type := mkFilters {
  current_playlist : string;
  current_purchased : string;
  current_processed : string;
  track_name_query : string
}.

(** The loop of [_populate_table]: the rows handed to [table.add_row], in
    order, and [matched_count]. The cells rendered from each row are left
    to the widget. *)
Definition _populate_table (catalog : list Track) (f : Filters)
  : list Track * nat :=
  fold_left
    (fun '(table, matched_count) row =>
       if negb (_in_playlist (Some (t_playlists row)) (current_playlist f))
       then (table, matched_count) else
       if negb (_matches_purchased (t_purchased row) (current_purchased f))
       then (table, matched_count) else
       if negb (_matches_processed (t_processed row) (current_processed f))
       then (table, matched_count) else
       if negb (_matches_track_name (t_title row) (track_name_query f))
       then (table, matched_count) else
       (table ++ [row], S matched_count))
    catalog ([], 0%nat).

(** The set [playlists] that the loop of [_get_playlist_options] builds;
    the options offered are "All playlists" and then these names. *)
Definition playlist_option_names (catalog : list Track) : gset string :=
  fold_left
    (fun playlists row =>
       fold_left
         (fun playlists name =>
            let normalized := strip name in
            if decide (normalized ≠ "" ∧ lower normalized ≠ "liked")
            then {[normalized]} ∪ playlists else playlists)
         (split "," (t_playlists row)) playlists)
    catalog ∅.

(** [_build_column_widths], from [self.visible_columns] and the titles of
    [self.df]. *)
Definition COLUMN_WIDTH : nat := 24.

Definition _build_column_widths (visible_columns : list string)
  (d : DataFrame) : dict nat :=
  let widths :=
    fold_left (fun widths column => dict_set column COLUMN_WIDTH widths)
      visible_columns [] in
  let title_max_len :=
    max_list (String.length "title"
              :: omap (fun row => String.length <$> t_title row) (rows d)) in
  let widths := dict_set "title" (title_max_len + 2)%nat widths in
  let widths := dict_set "purchased" 10%nat widths in
  let widths := dict_set "price" 8%nat widths in
  if decide ("processed" ∈ keys widths)
  then dict_set "processed" 11%nat widths else widths.

(** ** More vocabulary *)

(** The identifiers of a pass in the order of their first observation,
    those in [seen] left out. *)
Fixpoint first_seen_ids (seen : list string)
  (obs : list (option string * RemoteTrack)) : list string :=
  match obs with
  | [] => []
  | o :: obs' =>
      match r_kind (snd o), r_id (snd o) with
      | Some kind, Some i =>
          if decide (kind = "track" ∧ i ∉ seen)
          then i :: first_seen_ids (i :: seen) obs'
          else first_seen_ids seen obs'
      | _, _ => first_seen_ids seen obs'
      end
  end.

(** The labels the playlist filter reads in a [playlists] cell. *)
Definition labels (playlists : string) : list string :=
  strip <$> filter (fun name => strip name ≠ "") (split "," playlists).

(** A playlist name as a label reads back: no comma in it, no whitespace
    at its ends, and not empty. *)
Definition clean_label (name : string) : Prop :=
  split "," name = [name] ∧ strip name = name ∧ name ≠ "".

(** A [playlists] cell after any number of [+= f", {name}"]. *)
Inductive grown (p : string) : string -> Prop :=
| grown_refl : grown p p
| grown_step q name : grown p q -> grown p (q +:+ ", " +:+ name).

(** A frame on which the preparing steps of [_apply_track_edits] have
    nothing left to do. *)
Definition prepared (d : DataFrame) : Prop :=
  schema_get "price" Float64 d ≠ Null
  ∧ has_column "purchase_url" d = true
  ∧ has_column "processed" d = true
  ∧ schema_get "purchase_url" Utf8 d ≠ Null.

(** Two rows with the same identifier and the same remote fields. *)
Definition same_remote (a b : Track) : Prop :=
  t_id b = t_id a ∧ t_title b = t_title a ∧ t_artist b = t_artist a
  ∧ t_genre b = t_genre a ∧ t_playlists b = t_playlists a
  ∧ t_soundcloud_url b = t_soundcloud_url a.

(** The four tests of [_populate_table] on one row. *)
Definition matches (f : Filters) (row : Track) : bool :=
  _in_playlist (Some (t_playlists row)) (current_playlist f)
  && _matches_purchased (t_purchased row) (current_purchased f)
  && _matches_processed (t_processed row) (current_processed f)
  && _matches_track_name (t_title row) (track_name_query f).

(** [self.current_purchased = value] *)
Definition set_current_purchased (value : string) (f : Filters) : Filters :=
  mkFilters (current_playlist f) value (current_processed f)
    (track_name_query f).

(** The characters of a string. *)
Fixpoint chars (s : string) : list ascii :=
  match s with
  | EmptyString => []
  | String c s' => c :: chars s'
  end.

(** ** Tactics for concrete inputs *)

(** A closed decidable proposition, by evaluation. *)
Ltac by_compute :=
  match goal with
  | |- ?P => apply (@bool_decide_unpack P _); vm_compute; exact I
  end.

(** Membership in a list given by its elements. *)
Ltac elem_of_list :=
  repeat first [apply list_elem_of_here | apply list_elem_of_further].

(** ** Facts on dicts and loops *)

Section dict_facts.
Context {V : Type}.
Implicit Types (d : dict V) (k : string) (v : V).

Lemma dict_get_set_eq k v d : dict_get k (dict_set k v d) = Some v.
Proof.
  induction d as [|[k' v'] d IH]; simpl.
  - by rewrite decide_True.
  - destruct (decide (k' = k)) as [->|Hne]; simpl.
    + by rewrite decide_True.
    + by rewrite decide_False.
Qed.

Lemma dict_get_set_ne k k' v d :
  k ≠ k' -> dict_get k' (dict_set k v d) = dict_get k' d.
Proof.
  intros Hne. induction d as [|[k0 v0] d IH]; simpl.
  - by rewrite decide_False.
  - destruct (decide (k0 = k)) as [->|Hne0]; simpl.
    + by rewrite !decide_False.
    + destruct (decide (k0 = k')); [done|apply IH].
Qed.

Lemma dict_get_None k d : dict_get k d = None <-> k ∉ keys d.
Proof.
  induction d as [|[k' v'] d IH]; simpl.
  - split; [intros _; apply not_elem_of_nil|done].
  - rewrite not_elem_of_cons. simpl.
    destruct (decide (k' = k)) as [->|Hne].
    + split; [done|]. intros [? _]. done.
    + rewrite IH. split; [intros ?; split; [congruence|done]|by intros [_ ?]].
Qed.

Lemma dict_get_elem k v d : dict_get k d = Some v -> (k, v) ∈ d.
Proof.
  induction d as [|[k' v'] d IH]; simpl; [done|].
  destruct (decide (k' = k)) as [->|Hne].
  - intros [= ->]. apply elem_of_cons. by left.
  - intros H. apply elem_of_cons. right. by apply IH.
Qed.

Lemma elem_dict_get k v d :
  NoDup (keys d) -> (k, v) ∈ d -> dict_get k d = Some v.
Proof.
  induction d as [|[k' v'] d IH]; simpl.
  - intros _ H. by apply elem_of_nil in H.
  - rewrite NoDup_cons. intros [Hk Hd] [Heq|Hin]%elem_of_cons.
    + injection Heq as -> ->. by rewrite decide_True.
    + destruct (decide (k' = k)) as [->|Hne]; [|by apply IH].
      exfalso. apply Hk. change k with (fst (k, v)).
      by apply list_elem_of_fmap_2.
Qed.

Lemma dict_set_new k v d : dict_get k d = None -> dict_set k v d = d ++ [(k, v)].
Proof.
  induction d as [|[k' v'] d IH]; simpl; [done|].
  destruct (decide (k' = k)); [done|]. intros H. by rewrite IH.
Qed.

Lemma keys_dict_set_old k v v0 d :
  dict_get k d = Some v0 -> keys (dict_set k v d) = keys d.
Proof.
  induction d as [|[k' v'] d IH]; simpl; [done|].
  destruct (decide (k' = k)) as [->|Hne]; [done|].
  intros H. unfold keys in *. rewrite !fmap_cons. f_equal. by apply IH.
Qed.

Lemma NoDup_keys_set k v d : NoDup (keys d) -> NoDup (keys (dict_set k v d)).
Proof.
  intros Hd. destruct (dict_get k d) as [v0|] eqn:Hget.
  - by rewrite (keys_dict_set_old _ _ _ _ Hget).
  - rewrite (dict_set_new _ _ _ Hget). unfold keys. rewrite fmap_app.
    apply NoDup_app. split; [done|]. split; [|apply NoDup_singleton].
    intros x Hx Hk%list_elem_of_singleton. subst x.
    by apply dict_get_None in Hget.
Qed.
End dict_facts.

Section for_each_facts.
Context {A S : Type}.
Implicit Types (body : A -> S -> result S) (l : list A) (s : S).

Lemma for_each_app body l1 l2 s :
  for_each body (l1 ++ l2) s = (s' <- for_each body l1 s ;; for_each body l2 s').
Proof.
  revert s. induction l1 as [|x l1 IH]; intros s; simpl; [done|].
  destruct (body x s); simpl; [apply IH|done].
Qed.

Lemma for_each_concat body (ls : list (list A)) s :
  for_each (fun l s => for_each body l s) ls s = for_each body (concat ls) s.
Proof.
  revert s. induction ls as [|l ls IH]; intros s; simpl; [done|].
  rewrite for_each_app. destruct (for_each body l s); simpl; [apply IH|done].
Qed.

Lemma for_each_fmap {B} (f : B -> A) body (l : list B) s :
  for_each body (f <$> l) s = for_each (fun x s => body (f x) s) l s.
Proof.
  revert s. induction l as [|x l IH]; intros s; simpl; [done|].
  destruct (body (f x) s); simpl; [apply IH|done].
Qed.

End for_each_facts.

Lemma dict_set_id {V : Type} (k : string) (v : V) (d : dict V) :
  dict_get k d = Some v -> dict_set k v d = d.
Proof.
  induction d as [|[k' v'] d IH]; simpl; [done|].
  destruct (decide (k' = k)) as [->|Hne].
  - by intros [= ->].
  - intros H. by rewrite IH.
Qed.

(** ** Facts on strings *)

Lemma string_app_cons (c : ascii) (s t : string) :
  String c s +:+ t = String c (s +:+ t).
Proof. reflexivity. Qed.

Lemma string_app_nil_r (s : string) : s +:+ "" = s.
Proof.
  induction s as [|c s IH]; [reflexivity|].
  by rewrite string_app_cons, IH.
Qed.

Lemma string_app_assoc (s1 s2 s3 : string) :
  (s1 +:+ s2) +:+ s3 = s1 +:+ (s2 +:+ s3).
Proof.
  induction s1 as [|c s1 IH]; [reflexivity|].
  by rewrite !string_app_cons, IH.
Qed.

Lemma append_playlists_nil (v : Track) : append_playlists "" v = v.
Proof.
  destruct v. unfold append_playlists. simpl. by rewrite string_app_nil_r.
Qed.

Lemma append_playlists_app (s1 s2 : string) (v : Track) :
  append_playlists s2 (append_playlists s1 v) = append_playlists (s1 +:+ s2) v.
Proof.
  unfold append_playlists. simpl. by rewrite string_app_assoc.
Qed.

(** ** Facts on [add_track] *)

(** [add_track] with the record it creates named. *)
Lemma add_track_new_track track all_tracks old_tracks playlist_name :
  add_track track all_tracks old_tracks playlist_name
  = (kind <- getitem "kind" (r_kind track) ;;
     if negb (String.eqb kind "track") then Ok all_tracks else
     track_id <- getitem "id" (r_id track) ;;
     match dict_get track_id all_tracks with
     | Some cur =>
         match playlist_name with
         | None =>
             if negb (contains "liked" (t_playlists cur))
             then Ok (dict_set track_id (append_playlists ", liked" cur)
                        all_tracks)
             else Ok all_tracks
         | Some name =>
             if negb (contains name (t_playlists cur))
             then Ok (dict_set track_id
                        (append_playlists (", " +:+ name) cur) all_tracks)
             else Ok all_tracks
         end
     | None =>
         Ok (dict_set track_id (new_track track track_id old_tracks)
               all_tracks)
     end).
Proof.
  unfold add_track, new_track, owned_fields.
  destruct (r_kind track) as [kind|]; simpl; [|done].
  destruct (negb (String.eqb kind "track")); [done|].
  destruct (r_id track) as [i|]; simpl; [|done].
  by destruct (old_tracks !! i).
Qed.

(** The outcomes of one call that returns. *)
Lemma add_track_Ok track s old name s' :
  add_track track s old name = Ok s' ->
  (∃ kind, r_kind track = Some kind ∧ kind ≠ "track" ∧ s' = s)
  ∨ (∃ i, r_kind track = Some "track" ∧ r_id track = Some i
          ∧ match dict_get i s with
            | Some cur =>
                ∃ suffix, s' = dict_set i (append_playlists suffix cur) s
            | None => s' = dict_set i (new_track track i old) s
            end).
Proof.
  rewrite add_track_new_track.
  destruct (r_kind track) as [kind|]; simpl; [|done].
  destruct (String.eqb_spec kind "track") as [->|Hkind]; simpl.
  - destruct (r_id track) as [i|]; simpl; [|done].
    intros H. right. exists i. do 2 (split; [done|]).
    destruct (dict_get i s) as [cur|] eqn:Hget; [|by injection H as <-].
    destruct name as [name|].
    + destruct (contains name (t_playlists cur)); simpl in H; injection H as <-.
      * exists "". by rewrite append_playlists_nil, dict_set_id.
      * by eexists.
    + destruct (contains "liked" (t_playlists cur)); simpl in H;
        injection H as <-.
      * exists "". by rewrite append_playlists_nil, dict_set_id.
      * by eexists.
  - intros [= <-]. left. by exists kind.
Qed.

Lemma observes_spec i name track :
  observes i (name, track) = true
  <-> r_kind track = Some "track" ∧ r_id track = Some i.
Proof. unfold observes. by rewrite bool_decide_eq_true. Qed.

(** What one call does to the record under a key that is already there. *)
Lemma add_track_get_Some track s old name s' j v :
  add_track track s old name = Ok s' ->
  dict_get j s = Some v ->
  ∃ suffix, dict_get j s' = Some (append_playlists suffix v).
Proof.
  intros [(kind & _ & _ & ->)|(i & _ & _ & Hi)]%add_track_Ok Hj.
  - exists "". by rewrite append_playlists_nil.
  - destruct (decide (i = j)) as [->|Hne].
    + rewrite Hj in Hi. destruct Hi as [suffix ->].
      exists suffix. by rewrite dict_get_set_eq.
    + exists "". rewrite append_playlists_nil.
      destruct (dict_get i s); [destruct Hi as [? ->]|subst s'];
        by rewrite dict_get_set_ne.
Qed.

(** What one call does under a key that is not there yet. *)
Lemma add_track_get_None track s old name s' j :
  add_track track s old name = Ok s' ->
  dict_get j s = None ->
  dict_get j s'
  = if observes j (name, track) then Some (new_track track j old) else None.
Proof.
  intros [(kind & Hk & Hne & ->)|(i & Hk & Hid & Hi)]%add_track_Ok Hj.
  - destruct (observes j (name, track)) eqn:Ho; [|done].
    apply observes_spec in Ho as [Ho _]. congruence.
  - destruct (decide (i = j)) as [->|Hne].
    + rewrite Hj in Hi. subst s'. rewrite dict_get_set_eq.
      by rewrite (proj2 (observes_spec j name track)).
    + destruct (observes j (name, track)) eqn:Ho.
      { apply observes_spec in Ho as [_ Ho]. congruence. }
      destruct (dict_get i s); [destruct Hi as [? ->]|subst s'];
        by rewrite dict_get_set_ne.
Qed.

Lemma add_track_dict_ok track s old name s' :
  add_track track s old name = Ok s' -> dict_ok s -> dict_ok s'.
Proof.
  intros [(kind & _ & _ & ->)|(i & _ & _ & Hi)]%add_track_Ok [Hnd Hid]; [done|].
  assert (∃ v, s' = dict_set i v s ∧ t_id v = i) as (v & -> & Hv).
  { destruct (dict_get i s) as [cur|] eqn:Hget.
    - destruct Hi as [suffix ->]. eexists. split; [done|]. simpl. by apply Hid.
    - by eexists. }
  split; [by apply NoDup_keys_set|].
  intros k w. destruct (decide (i = k)) as [->|Hne].
  - rewrite dict_get_set_eq. by intros [= <-].
  - rewrite dict_get_set_ne by done. apply Hid.
Qed.

(** ** Facts on a whole pass *)

Lemma add_tracks_cons old o obs s :
  add_tracks old (o :: obs) s
  = (s1 <- add_track (snd o) s old (fst o) ;; add_tracks old obs s1).
Proof. reflexivity. Qed.

Lemma add_tracks_app old obs1 obs2 s :
  add_tracks old (obs1 ++ obs2) s
  = (s1 <- add_tracks old obs1 s ;; add_tracks old obs2 s1).
Proof. apply for_each_app. Qed.

(** The two nested loops of [create_new_df] are one loop over the
    observations. *)
Lemma create_new_df_observations old_df liked_pages playlist_pages :
  create_new_df old_df liked_pages playlist_pages
  = (all_tracks <-
       add_tracks (match old_df with
                   | Some rows => load_old_tracks rows
                   | None => ∅
                   end)
         (observations liked_pages playlist_pages) [] ;;
     Ok (values all_tracks)).
Proof.
  unfold create_new_df, observations, add_tracks.
  rewrite for_each_app, for_each_concat, for_each_fmap. simpl.
  destruct (for_each _ (concat liked_pages) []) as [s|e]; simpl; [|done].
  f_equal. rewrite for_each_concat.
  generalize (concat playlist_pages). intros pls. revert s.
  induction pls as [|pl pls IH]; intros s; simpl; [done|].
  rewrite for_each_app, for_each_fmap. simpl.
  destruct (for_each _ (pl_tracks pl) s); simpl; [apply IH|done].
Qed.

Lemma add_tracks_dict_ok old obs s s' :
  add_tracks old obs s = Ok s' -> dict_ok s -> dict_ok s'.
Proof.
  revert s. induction obs as [|o obs IH]; intros s.
  - by intros [= <-].
  - rewrite add_tracks_cons.
    destruct (add_track (snd o) s old (fst o)) as [s1|] eqn:H1; simpl; [|done].
    intros H Hok. apply (IH s1 H). by eapply add_track_dict_ok.
Qed.

Lemma dict_ok_nil : dict_ok [].
Proof. split; [apply NoDup_nil_2|done]. Qed.

(** A record, once in [all_tracks], only has its playlists string extended. *)
Lemma add_tracks_get_Some old obs s s' j v :
  add_tracks old obs s = Ok s' ->
  dict_get j s = Some v ->
  ∃ suffix, dict_get j s' = Some (append_playlists suffix v).
Proof.
  revert s v. induction obs as [|o obs IH]; intros s v.
  - intros [= <-] Hj. exists "". by rewrite append_playlists_nil.
  - rewrite add_tracks_cons.
    destruct (add_track (snd o) s old (fst o)) as [s1|] eqn:H1; simpl; [|done].
    intros H Hj.
    destruct (add_track_get_Some _ _ _ _ _ _ _ H1 Hj) as [suf1 Hj1].
    destruct (IH _ _ H Hj1) as [suf2 Hj2].
    exists (suf1 +:+ suf2). by rewrite <- append_playlists_app.
Qed.

(** A key absent at the start is created by its first observation. *)
Lemma add_tracks_get_None old obs s s' j :
  add_tracks old obs s = Ok s' ->
  dict_get j s = None ->
  match first_observation j obs with
  | Some o =>
      ∃ suffix,
        dict_get j s' = Some (append_playlists suffix (new_track (snd o) j old))
  | None => dict_get j s' = None
  end.
Proof.
  revert s. induction obs as [|[name track] obs IH]; intros s.
  - by intros [= <-] Hj.
  - rewrite add_tracks_cons. simpl.
    destruct (add_track track s old name) as [s1|] eqn:H1; simpl; [|done].
    intros H Hj. pose proof (add_track_get_None _ _ _ _ _ _ H1 Hj) as Hj1.
    unfold first_observation. simpl.
    destruct (observes j (name, track)).
    + by apply (add_tracks_get_Some _ _ _ _ _ _ H).
    + apply (IH s1 H Hj1).
Qed.

(** The rows of the result are the records of [all_tracks], each under
    its own [id]. *)
Lemma dict_ok_values_get s r :
  dict_ok s -> r ∈ values s -> dict_get (t_id r) s = Some r.
Proof.
  intros [Hnd Hid] ([k v] & -> & Hin)%list_elem_of_fmap. simpl.
  pose proof (elem_dict_get _ _ _ Hnd Hin) as Hget.
  by rewrite (Hid _ _ Hget).
Qed.

Lemma dict_get_values {V : Type} (s : dict V) k v :
  dict_get k s = Some v -> v ∈ values s.
Proof.
  intros H%dict_get_elem. unfold values. change v with (snd (k, v)).
  by apply list_elem_of_fmap_2.
Qed.

Lemma dict_ok_ids s : dict_ok s -> t_id <$> values s = keys s.
Proof.
  intros [Hnd Hid]. unfold values, keys. rewrite <- list_fmap_compose.
  apply Forall_fmap_ext_1, Forall_forall. intros [k v] Hin. simpl.
  apply Hid. by apply elem_dict_get.
Qed.

(** ** Facts on [load_old_tracks] *)

Lemma load_fold_notin rows (acc : gmap string Owned) i :
  i ∉ t_id <$> rows -> fold_left load_row rows acc !! i = acc !! i.
Proof.
  revert acc. induction rows as [|x rows IH]; intros acc; simpl; [done|].
  rewrite not_elem_of_cons. intros [Hne Hni].
  rewrite IH by done. unfold load_row.
  destruct (all_default (owned_of x)); [done|]. by rewrite lookup_insert_ne.
Qed.

Lemma load_fold_in rows (acc : gmap string Owned) x :
  NoDup (t_id <$> rows) -> x ∈ rows ->
  fold_left load_row rows acc !! t_id x
  = if all_default (owned_of x) then acc !! t_id x else Some (owned_of x).
Proof.
  revert acc. induction rows as [|y rows IH]; intros acc.
  - intros _ H. by apply elem_of_nil in H.
  - rewrite fmap_cons, NoDup_cons. intros [Hni Hnd] [->|Hin]%elem_of_cons; simpl.
    + rewrite load_fold_notin by done. unfold load_row.
      destruct (all_default (owned_of y)); [done|]. by rewrite lookup_insert_eq.
    + rewrite IH by done. destruct (all_default (owned_of x)); [|done].
      unfold load_row. destruct (all_default (owned_of y)); [done|].
      rewrite lookup_insert_ne; [done|]. intros Heq. apply Hni. rewrite Heq.
      by apply list_elem_of_fmap_2.
Qed.

Lemma load_old_tracks_in rows x :
  NoDup (t_id <$> rows) -> x ∈ rows ->
  load_old_tracks rows !! t_id x
  = if all_default (owned_of x) then None else Some (owned_of x).
Proof.
  intros Hnd Hin. unfold load_old_tracks. rewrite load_fold_in by done.
  by rewrite lookup_empty.
Qed.

(** Every entry of [old_tracks] has an owned field off its default. *)
Lemma load_fold_nondefault rows (acc : gmap string Owned) :
  map_Forall (fun _ o => all_default o = false) acc ->
  map_Forall (fun _ o => all_default o = false) (fold_left load_row rows acc).
Proof.
  revert acc. induction rows as [|x rows IH]; intros acc Hacc; simpl; [done|].
  apply IH. unfold load_row.
  destruct (all_default (owned_of x)) eqn:Hx; [done|].
  by apply map_Forall_insert_2.
Qed.

Lemma old_tracks_nondefault (old_df : option (list Track)) :
  map_Forall (fun _ o => all_default o = false)
    (match old_df with
     | Some rows => load_old_tracks rows
     | None => (∅ : gmap string Owned)
     end).
Proof.
  destruct old_df as [rows|]; [|apply map_Forall_empty].
  apply load_fold_nondefault, map_Forall_empty.
Qed.

(** ** The owned fields of a created record *)

Lemma owned_eta (o : Owned) :
  mkOwned (o_price o) (o_purchased o) (o_purchase_url o) = o.
Proof. by destruct o. Qed.

Lemma new_track_owned track i old :
  owned_of (new_track track i old) = owned_fields old i (r_purchase_url track).
Proof. unfold new_track, owned_of. simpl. apply owned_eta. Qed.

Lemma new_track_processed_ok track i old : processed_ok (new_track track i old).
Proof. reflexivity. Qed.

Lemma append_playlists_processed_ok suffix v :
  processed_ok v -> processed_ok (append_playlists suffix v).
Proof. done. Qed.

(** [add_track] reads [old_tracks] only where it creates a record. *)
Lemma add_track_old_ext track s old1 old2 name :
  (forall i, r_kind track = Some "track" -> r_id track = Some i ->
             dict_get i s = None ->
             owned_fields old2 i (r_purchase_url track)
             = owned_fields old1 i (r_purchase_url track)) ->
  add_track track s old2 name = add_track track s old1 name.
Proof.
  intros H. rewrite !add_track_new_track.
  destruct (r_kind track) as [kind|]; simpl; [|done].
  destruct (String.eqb_spec kind "track") as [->|Hkind]; simpl; [|done].
  destruct (r_id track) as [i|]; simpl; [|done].
  destruct (dict_get i s) eqn:Hget; [done|].
  unfold new_track. simpl. by rewrite (H i).
Qed.

Lemma owned_fields_replay (old1 old2 : gmap string Owned) i url :
  (forall o, old1 !! i = Some o -> all_default o = false) ->
  old2 !! i = (if all_default (owned_fields old1 i url) then None
               else Some (owned_fields old1 i url)) ->
  owned_fields old2 i url = owned_fields old1 i url.
Proof.
  intros Hnd. unfold owned_fields. destruct (old1 !! i) as [o|] eqn:Ho1.
  - rewrite owned_eta, (Hnd o eq_refl). intros ->. by rewrite owned_eta.
  - intros ->. by destruct (all_default _).
Qed.

(** A pass run against [old1] runs the same against any [old2] that holds,
    for each record of the outcome, the owned fields of that record when
    they are not all at default and nothing otherwise. *)
Lemma add_tracks_replay old1 old2 obs s s' :
  map_Forall (fun _ o => all_default o = false) old1 ->
  (forall i v, dict_get i s' = Some v ->
     old2 !! i = if all_default (owned_of v) then None else Some (owned_of v)) ->
  add_tracks old1 obs s = Ok s' ->
  add_tracks old2 obs s = Ok s'.
Proof.
  intros Hold1 Hold2. revert s. induction obs as [|[name track] obs IH]; intros s.
  - done.
  - rewrite !add_tracks_cons. simpl.
    destruct (add_track track s old1 name) as [s1|] eqn:H1; simpl; [|done].
    intros H. rewrite (add_track_old_ext track s old1 old2 name).
    { rewrite H1. simpl. by apply IH. }
    intros i Hkind Hid Hget.
    pose proof (add_track_get_None _ _ _ _ _ _ H1 Hget) as Hi1.
    rewrite (proj2 (observes_spec i name track)) in Hi1 by done.
    destruct (add_tracks_get_Some _ _ _ _ _ _ H Hi1) as [suffix Hi'].
    apply Hold2 in Hi'. change (owned_of (append_playlists suffix ?v))
      with (owned_of v) in Hi'.
    rewrite new_track_owned in Hi'.
    apply owned_fields_replay; [|done]. intros o. apply Hold1.
Qed.

(** ** The catalog of a pass *)

(** A pass that returns went through [all_tracks], whose values it wrote. *)
Lemma create_new_df_Ok old_df liked_pages playlist_pages catalog :
  create_new_df old_df liked_pages playlist_pages = Ok catalog ->
  ∃ all_tracks,
    add_tracks (match old_df with
                | Some rows => load_old_tracks rows
                | None => ∅
                end)
      (observations liked_pages playlist_pages) [] = Ok all_tracks
    ∧ dict_ok all_tracks ∧ catalog = values all_tracks.
Proof.
  rewrite create_new_df_observations.
  destruct (add_tracks _ _ []) as [s|] eqn:Hs; simpl; [|done].
  intros [= <-]. exists s. split; [done|]. split; [|done].
  by apply (add_tracks_dict_ok _ _ _ _ Hs), dict_ok_nil.
Qed.

Lemma first_observation_Some i obs name track :
  (name, track) ∈ obs -> r_kind track = Some "track" -> r_id track = Some i ->
  is_Some (first_observation i obs).
Proof.
  intros Hin Hkind Hid. unfold first_observation.
  destruct (List.find (observes i) obs) as [o|] eqn:Hfind; [by eexists|].
  apply list_elem_of_In in Hin.
  pose proof (List.find_none _ _ Hfind _ Hin) as Hno.
  by rewrite (proj2 (observes_spec i name track)) in Hno.
Qed.

Lemma all_default_true (o : Owned) :
  all_default o = true
  <-> o_price o = None ∧ o_purchased o = Some false
      ∧ has_non_default_purchase_url (o_purchase_url o) = false.
Proof.
  unfold all_default.
  destruct (o_price o), (o_purchased o) as [[]|]; rewrite ?negb_true_iff;
    (split; [intros H|intros (? & ? & ?)]); try done; auto.
Qed.

(** The owned fields of the record a pass writes for a row of the previous
    catalog. *)
Lemma reconciled_owned prior obs s' x r :
  NoDup (t_id <$> prior) -> x ∈ prior ->
  add_tracks (load_old_tracks prior) obs [] = Ok s' ->
  dict_get (t_id x) s' = Some r ->
  ∃ o, first_observation (t_id x) obs = Some o
       ∧ owned_of r
         = if all_default (owned_of x)
           then mkOwned None (Some false) (r_purchase_url (snd o))
           else owned_of x.
Proof.
  intros Hnd Hin Hs Hget.
  pose proof (add_tracks_get_None _ _ _ _ (t_id x) Hs eq_refl) as Hfirst.
  destruct (first_observation (t_id x) obs) as [o|]; [|congruence].
  destruct Hfirst as [suffix Hr]. rewrite Hget in Hr. injection Hr as ->.
  exists o. split; [done|].
  change (owned_of (append_playlists suffix ?v)) with (owned_of v).
  rewrite new_track_owned. unfold owned_fields.
  rewrite (load_old_tracks_in _ _ Hnd Hin).
  destruct (all_default (owned_of x)); [done|apply owned_eta].
Qed.

(** C9: reconciliation is idempotent. A pass over the catalog that the
    same pages produced returns that very catalog: the same records in the
    same order, with the same owned, remote and playlist fields. *)
Theorem reconciliation_idempotent old_df liked_pages playlist_pages catalog :
  create_new_df old_df liked_pages playlist_pages = Ok catalog ->
  create_new_df (Some catalog) liked_pages playlist_pages = Ok catalog.
Proof.
  intros (s & Hs & Hok & ->)%create_new_df_Ok.
  rewrite create_new_df_observations.
  rewrite (add_tracks_replay _ (load_old_tracks (values s)) _ _ s
             (old_tracks_nondefault old_df)); [done| |done].
  intros i v Hget. pose proof (proj2 Hok _ _ Hget) as <-.
  apply load_old_tracks_in.
  - rewrite dict_ok_ids by done. apply Hok.
  - by eapply dict_get_values.
Qed.

Lemma reconciliation_idempotent_witness :
  create_new_df (Some sample_prior)
    [[sample_track "X" None; sample_track "Z" (Some "https://buy/z")]]
    [[mkPlaylist "Deep House" [sample_track "X" None]]]
  = Ok [sample_row "X" true (Some 9.99%float) (Some "u") "liked, Deep House";
        sample_row "Z" false None (Some "https://buy/z") "liked"]
  ∧ create_new_df
      (Some [sample_row "X" true (Some 9.99%float) (Some "u")
               "liked, Deep House";
             sample_row "Z" false None (Some "https://buy/z") "liked"])
      [[sample_track "X" None; sample_track "Z" (Some "https://buy/z")]]
      [[mkPlaylist "Deep House" [sample_track "X" None]]]
    = Ok [sample_row "X" true (Some 9.99%float) (Some "u") "liked, Deep House";
          sample_row "Z" false None (Some "https://buy/z") "liked"].
Proof.
  split; [vm_compute; reflexivity|].
  apply (reconciliation_idempotent (Some sample_prior)).
  vm_compute; reflexivity.
Defined.


(** C2: owned fields survive a pass. For a previous catalog keyed by
    [id], a row [x] of it whose identifier a record of track kind brings
    back has exactly one record in the new catalog; that record has the
    [purchased] and [price] of [x], and, when [x] holds any owned data (its
    owned fields are not all at default), the [purchase_url] of [x] too. *)
Theorem owned_fields_preserved prior liked_pages playlist_pages catalog x
  name track :
  NoDup (t_id <$> prior) ->
  x ∈ prior ->
  (name, track) ∈ observations liked_pages playlist_pages ->
  r_kind track = Some "track" ->
  r_id track = Some (t_id x) ->
  create_new_df (Some prior) liked_pages playlist_pages = Ok catalog ->
  ∃ r, r ∈ catalog ∧ t_id r = t_id x
       ∧ (forall r', r' ∈ catalog -> t_id r' = t_id x -> r' = r)
       ∧ t_purchased r = t_purchased x
       ∧ t_price r = t_price x
       ∧ (all_default (owned_of x) = false ->
          t_purchase_url r = t_purchase_url x).
Proof.
  intros Hnd Hin Hobs Hkind Hid (s & Hs & Hok & ->)%create_new_df_Ok.
  destruct (first_observation_Some _ _ _ _ Hobs Hkind Hid) as [o Ho].
  pose proof (add_tracks_get_None _ _ _ _ (t_id x) Hs eq_refl) as Hget.
  rewrite Ho in Hget. destruct Hget as [suffix Hget].
  set (r := append_playlists suffix (new_track (snd o) (t_id x) _)) in Hget.
  exists r. split; [by eapply dict_get_values|]. split; [done|]. split.
  { intros r' Hr' Hid'. apply (dict_ok_values_get _ _ Hok) in Hr'.
    rewrite Hid', Hget in Hr'. by injection Hr'. }
  destruct (reconciled_owned _ _ _ _ _ Hnd Hin Hs Hget) as (o' & _ & Howned).
  destruct (all_default (owned_of x)) eqn:Hdef.
  - apply all_default_true in Hdef as (Hprice & Hpurchased & _).
    simpl in Hprice, Hpurchased. injection Howned as Hp Hq Hu.
    rewrite Hprice, Hpurchased. done.
  - injection Howned as Hp Hq Hu. done.
Qed.

Lemma owned_fields_preserved_witness :
  ∃ r, r ∈ [sample_row "X" true (Some 9.99%float) (Some "u") "liked"]
       ∧ t_id r = "X"
       ∧ (forall r',
            r' ∈ [sample_row "X" true (Some 9.99%float) (Some "u") "liked"] ->
            t_id r' = "X" -> r' = r)
       ∧ t_purchased r = Some true
       ∧ t_price r = Some 9.99%float
       ∧ (all_default (mkOwned (Some 9.99%float) (Some true) (Some "u")) = false
          -> t_purchase_url r = Some "u").
Proof.
  apply (owned_fields_preserved sample_prior [[sample_track "X" None]] []
           [sample_row "X" true (Some 9.99%float) (Some "u") "liked"]
           (sample_row "X" true (Some 9.99%float) (Some "u") "liked, Deep House")
           None (sample_track "X" None)).
  - by_compute.
  - elem_of_list.
  - elem_of_list.
  - reflexivity.
  - reflexivity.
  - vm_compute. reflexivity.
Defined.

(** C10: which purchase URL a pass writes. For a previous catalog keyed
    by [id], the record written for the identifier of a previous row [x]
    keeps the stored [purchase_url] of [x], whatever it is and whatever the
    remote record carries, when [x] has an owned field off its default
    ([purchased] true, a price, or a URL that is not blank); when the owned
    fields of [x] are all at default it takes the purchase URL of the
    remote record that created it; so a URL that differs from the stored
    one is only found where all owned fields were at default. *)
Theorem purchase_url_kept_unless_all_default prior liked_pages playlist_pages
  catalog x r :
  NoDup (t_id <$> prior) ->
  x ∈ prior ->
  create_new_df (Some prior) liked_pages playlist_pages = Ok catalog ->
  r ∈ catalog ->
  t_id r = t_id x ->
  (t_purchased x = Some true ∨ t_price x ≠ None
   ∨ has_non_default_purchase_url (t_purchase_url x) = true ->
   t_purchase_url r = t_purchase_url x)
  ∧ (t_purchased x = Some false ->
     t_price x = None ->
     has_non_default_purchase_url (t_purchase_url x) = false ->
     ∃ o, first_observation (t_id x)
            (observations liked_pages playlist_pages) = Some o
          ∧ t_purchase_url r = r_purchase_url (snd o))
  ∧ (t_purchase_url r ≠ t_purchase_url x ->
     t_purchased x = Some false ∧ t_price x = None
     ∧ has_non_default_purchase_url (t_purchase_url x) = false).
Proof.
  intros Hnd Hin (s & Hs & Hok & ->)%create_new_df_Ok Hr Hid.
  apply (dict_ok_values_get _ _ Hok) in Hr. rewrite Hid in Hr.
  destruct (reconciled_owned _ _ _ _ _ Hnd Hin Hs Hr) as (o & Ho & Howned).
  pose proof (all_default_true (owned_of x)) as Hdef. simpl in Hdef.
  destruct (all_default (owned_of x)); injection Howned as Hp Hq Hu.
  - destruct (proj1 Hdef eq_refl) as (Hprice & Hpurchased & Hurl).
    split; [intros [?|[?|?]]; congruence|]. split; [|done].
    intros _ _ _. by exists o.
  - split; [done|]. split; [|done].
    intros Hpurchased Hprice Hurl.
    discriminate (proj2 Hdef (conj Hprice (conj Hpurchased Hurl))).
Qed.

Lemma purchase_url_kept_unless_all_default_witness :
  (Some true = Some true ∨ (None : option float) ≠ None
   ∨ has_non_default_purchase_url None = true ->
   t_purchase_url (sample_row "X" true None None "liked") = None)
  ∧ (Some true = Some false ->
     (None : option float) = None ->
     has_non_default_purchase_url None = false ->
     ∃ o, first_observation "X"
            (observations [[sample_track "X" (Some "https://buy/x")]] [])
          = Some o
          ∧ t_purchase_url (sample_row "X" true None None "liked")
            = r_purchase_url (snd o))
  ∧ (t_purchase_url (sample_row "X" true None None "liked") ≠ None ->
     Some true = Some false ∧ (None : option float) = None
     ∧ has_non_default_purchase_url None = false).
Proof.
  apply (purchase_url_kept_unless_all_default
           [sample_row "X" true None None "liked, Deep House"]
           [[sample_track "X" (Some "https://buy/x")]] []
           [sample_row "X" true None None "liked"]
           (sample_row "X" true None None "liked, Deep House")
           (sample_row "X" true None None "liked")).
  - by_compute.
  - elem_of_list.
  - vm_compute. reflexivity.
  - elem_of_list.
  - reflexivity.
Defined.

(** ** The derived column after a pass *)

Lemma Forall_values_set {V : Type} (P : V -> Prop) k v (d : dict V) :
  P v -> Forall P (values d) -> Forall P (values (dict_set k v d)).
Proof.
  intros Hv. unfold values. induction d as [|[k' v'] d IH]; simpl.
  - by constructor.
  - intros [Hv' Hd]%Forall_cons. destruct (decide (k' = k)); simpl.
    + by constructor.
    + constructor; [done|by apply IH].
Qed.

Lemma add_track_processed_ok track s old name s' :
  add_track track s old name = Ok s' ->
  Forall processed_ok (values s) -> Forall processed_ok (values s').
Proof.
  intros [(kind & _ & _ & ->)|(i & _ & _ & Hi)]%add_track_Ok Hall; [done|].
  destruct (dict_get i s) as [cur|] eqn:Hget.
  - destruct Hi as [suffix ->]. apply Forall_values_set; [|done].
    apply append_playlists_processed_ok.
    rewrite Forall_forall in Hall. by eapply Hall, dict_get_values.
  - subst s'. apply Forall_values_set; [apply new_track_processed_ok|done].
Qed.

Lemma add_tracks_processed_ok old obs s s' :
  add_tracks old obs s = Ok s' ->
  Forall processed_ok (values s) -> Forall processed_ok (values s').
Proof.
  revert s. induction obs as [|o obs IH]; intros s.
  - by intros [= <-].
  - rewrite add_tracks_cons.
    destruct (add_track (snd o) s old (fst o)) as [s1|] eqn:H1; simpl; [|done].
    intros H Hall. apply (IH s1 H). by eapply add_track_processed_ok.
Qed.

Lemma reconciled_processed_ok catalog :
  reconciled catalog -> Forall processed_ok catalog.
Proof.
  intros (old_df & l & p & (s & Hs & _ & ->)%create_new_df_Ok).
  apply (add_tracks_processed_ok _ _ _ _ Hs). constructor.
Qed.

(** A catalog written by a pass has no identifier twice, as the passes
    after it require of it. *)
Lemma reconciled_NoDup catalog : reconciled catalog -> NoDup (t_id <$> catalog).
Proof.
  intros (old_df & l & p & (s & _ & Hok & ->)%create_new_df_Ok).
  rewrite dict_ok_ids by done. apply Hok.
Qed.

(** ** Records without an identifier *)

Lemma add_track_skips_other_kinds track s old name kind :
  r_kind track = Some kind -> kind ≠ "track" ->
  add_track track s old name = Ok s.
Proof.
  intros Hk Hne. rewrite add_track_new_track, Hk. simpl.
  by destruct (String.eqb_spec kind "track").
Qed.

Lemma add_track_without_id track s old name :
  r_kind track = Some "track" -> r_id track = None ->
  add_track track s old name = Raise (KeyError "id").
Proof. intros Hk Hid. by rewrite add_track_new_track, Hk, Hid. Qed.

Lemma add_tracks_without_id old obs s name track :
  (name, track) ∈ obs -> r_kind track = Some "track" -> r_id track = None ->
  ∃ e, add_tracks old obs s = Raise e.
Proof.
  intros Hin Hk Hid. revert s. induction obs as [|o obs IH]; intros s.
  - by apply elem_of_nil in Hin.
  - rewrite add_tracks_cons. apply elem_of_cons in Hin as [<-|Hin]; simpl.
    + rewrite add_track_without_id by done. by eexists.
    + destruct (add_track (snd o) s old (fst o)); simpl; [by apply IH|].
      by eexists.
Qed.

(** C8, as the code has it: a remote record whose kind is not ["track"] is
    skipped, [all_tracks] is left as it was and the pass goes on; a record
    of track kind with no [id] is not skipped: the call raises
    [KeyError], and a pass that meets such a record raises and writes no
    catalog. *)
Theorem track_without_id_aborts_pass :
  (forall track s old name kind,
     r_kind track = Some kind -> kind ≠ "track" ->
     add_track track s old name = Ok s)
  ∧ (forall track s old name,
       r_kind track = Some "track" -> r_id track = None ->
       add_track track s old name = Raise (KeyError "id"))
  ∧ (forall old_df liked_pages playlist_pages name track,
       (name, track) ∈ observations liked_pages playlist_pages ->
       r_kind track = Some "track" -> r_id track = None ->
       ∃ e, create_new_df old_df liked_pages playlist_pages = Raise e).
Proof.
  split; [apply add_track_skips_other_kinds|].
  split; [apply add_track_without_id|].
  intros old_df l p name track Hin Hk Hid.
  rewrite create_new_df_observations.
  destruct (add_tracks_without_id
              (match old_df with
               | Some rows => load_old_tracks rows
               | None => ∅
               end) _ [] _ _ Hin Hk Hid) as [e ->].
  by exists e.
Qed.

Lemma track_without_id_aborts_pass_witness :
  add_track
    (mkRemoteTrack (Some "playlist") (Some "P") None None None None None)
    [] ∅ None = Ok []
  ∧ add_track track_without_id [] ∅ None = Raise (KeyError "id")
  ∧ ∃ e, create_new_df None
           [[sample_track "X" None; track_without_id; sample_track "Z" None]]
           [] = Raise e.
Proof.
  destruct track_without_id_aborts_pass as (Hskip & Hraise & Hpass).
  split; [by apply (Hskip _ _ _ _ "playlist")|].
  split; [by apply Hraise|].
  apply (Hpass None _ _ None track_without_id); [elem_of_list|done|done].
Defined.

(** C8 as stated fails: the pass over a liked page with a track that has
    no [id] between two sound ones raises [KeyError] and returns no
    catalog; the record after it is never reached. *)
Lemma track_without_id_not_skipped :
  create_new_df None
    [[sample_track "X" None; track_without_id; sample_track "Z" None]] []
  = Raise (KeyError "id").
Proof. vm_compute. reflexivity. Qed.

(** ** Playlist labels *)

Lemma load_fold_owned_view rows rows' (acc : gmap string Owned) :
  owned_view rows = owned_view rows' ->
  fold_left load_row rows acc = fold_left load_row rows' acc.
Proof.
  unfold owned_view. revert rows' acc.
  induction rows as [|x rows IH]; intros [|x' rows'] acc; simpl; try done.
  intros [= Hid Hprice Hpurchased Hurl Hrest]. rewrite (IH rows') by done.
  f_equal. unfold load_row, owned_of. by rewrite Hid, Hprice, Hpurchased, Hurl.
Qed.

Lemma observations_app_r liked_pages playlist_pages more :
  observations liked_pages (playlist_pages ++ more)
  = observations liked_pages playlist_pages
    ++ concat ((fun playlist =>
                  pair (Some (pl_title playlist)) <$> pl_tracks playlist)
               <$> concat more).
Proof.
  unfold observations. by rewrite concat_app, fmap_app, concat_app, app_assoc.
Qed.

(** C4, as the code has it: the playlists string of a record is built
    from the observations of the pass alone. The previous catalog is read
    for identifiers and owned fields only, so two previous catalogs that
    agree on those give the same outcome whatever playlists they recorded;
    and within a pass the string only grows: when the pass goes on over
    further playlist pages, each record is still there and its earlier
    string is the beginning of its later one. *)
Theorem playlists_rebuilt_each_pass :
  (forall prior prior' liked_pages playlist_pages,
     owned_view prior = owned_view prior' ->
     create_new_df (Some prior) liked_pages playlist_pages
     = create_new_df (Some prior') liked_pages playlist_pages)
  ∧ (forall old_df liked_pages playlist_pages more catalog catalog' r,
       create_new_df old_df liked_pages playlist_pages = Ok catalog ->
       create_new_df old_df liked_pages (playlist_pages ++ more) = Ok catalog' ->
       r ∈ catalog ->
       ∃ suffix, append_playlists suffix r ∈ catalog').
Proof.
  split.
  - intros prior prior' l p Hview. rewrite !create_new_df_observations.
    unfold load_old_tracks. by rewrite (load_fold_owned_view _ _ _ Hview).
  - intros old_df l p more catalog catalog' r
      (s & Hs & Hok & ->)%create_new_df_Ok
      (s' & Hs' & Hok' & ->)%create_new_df_Ok Hr.
    rewrite observations_app_r, add_tracks_app, Hs in Hs'. simpl in Hs'.
    apply (dict_ok_values_get _ _ Hok) in Hr.
    destruct (add_tracks_get_Some _ _ _ _ _ _ Hs' Hr) as [suffix Hr'].
    exists suffix. by eapply dict_get_values.
Qed.

Lemma playlists_rebuilt_each_pass_witness :
  create_new_df
    (Some [sample_row "X" true (Some 9.99%float) (Some "u") "liked, Deep House"])
    [[sample_track "X" None]] []
  = create_new_df
      (Some [sample_row "X" true (Some 9.99%float) (Some "u") "liked"])
      [[sample_track "X" None]] []
  ∧ ∃ suffix,
      append_playlists suffix
        (sample_row "X" false None None "liked")
      ∈ [sample_row "X" false None None "liked, Deep House"].
Proof.
  destruct playlists_rebuilt_each_pass as [Hprior Hgrow]. split.
  - by apply Hprior.
  - apply (Hgrow None [[sample_track "X" None]] []
             [[mkPlaylist "Deep House" [sample_track "X" None]]]
             [sample_row "X" false None None "liked"]).
    + vm_compute. reflexivity.
    + vm_compute. reflexivity.
    + elem_of_list.
Defined.

(** C4 as stated fails: [X] was recorded in playlist ["Deep House"] by the
    previous catalog; a pass that observes it in the liked collection only
    writes a record whose labels no longer have ["Deep House"]. *)
Lemma prior_playlist_membership_dropped :
  _in_playlist
    (Some (t_playlists
             (sample_row "X" true (Some 9.99%float) (Some "u")
                "liked, Deep House")))
    "Deep House" = true
  ∧ ∃ r, create_new_df
           (Some [sample_row "X" true (Some 9.99%float) (Some "u")
                    "liked, Deep House"])
           [[sample_track "X" None]] [] = Ok [r]
         ∧ t_id r = "X"
         ∧ _in_playlist (Some (t_playlists r)) "Deep House" = false.
Proof.
  split; [vm_compute; reflexivity|].
  eexists. split; [vm_compute; reflexivity|]. split; vm_compute; reflexivity.
Qed.

(** C3 on the code, at a track seen in playlist ["Deep House"] only: the
    record created for it has the label ["liked"], not the playlist's
    name. *)
Theorem playlist_only_track_labelled_liked :
  ∃ r, create_new_df None []
         [[mkPlaylist "Deep House" [sample_track "X" None]]] = Ok [r]
       ∧ t_playlists r = "liked"
       ∧ _in_playlist (Some (t_playlists r)) "Deep House" = false
       ∧ _in_playlist (Some (t_playlists r)) "liked" = true.
Proof.
  eexists. split; [vm_compute; reflexivity|].
  repeat split; vm_compute; reflexivity.
Qed.

(** C5 on the code, at a track seen in the liked collection, then in
    playlist ["Deep House"], then in playlist ["House"]: the first two
    labels are there, each once, but ["House"], which no label of the
    record equals, is not appended, because it occurs inside
    ["liked, Deep House"]. *)
Theorem substring_label_not_appended :
  ∃ r, create_new_df None [[sample_track "X" None]]
         [[mkPlaylist "Deep House" [sample_track "X" None];
           mkPlaylist "House" [sample_track "X" None]]] = Ok [r]
       ∧ t_playlists r = "liked, Deep House"
       ∧ _in_playlist (Some (t_playlists r)) "liked" = true
       ∧ _in_playlist (Some (t_playlists r)) "Deep House" = true
       ∧ _in_playlist (Some (t_playlists r)) "House" = false.
Proof.
  eexists. split; [vm_compute; reflexivity|].
  repeat split; vm_compute; reflexivity.
Qed.

(** ** Facts on the dataframe *)

Lemma keys_dict_set {V : Type} k k' (v : V) (d : dict V) :
  k' ∈ keys (dict_set k v d) <-> k' = k ∨ k' ∈ keys d.
Proof.
  destruct (dict_get k d) as [v0|] eqn:Hget.
  - rewrite (keys_dict_set_old _ _ _ _ Hget). split; [by right|].
    intros [->|?]; [|done]. destruct (decide (k ∈ keys d)) as [|Hn]; [done|].
    apply dict_get_None in Hn. congruence.
  - rewrite (dict_set_new _ _ _ Hget). unfold keys. rewrite fmap_app.
    rewrite elem_of_app. change ([(k, v)].*1) with [k].
    rewrite list_elem_of_singleton. tauto.
Qed.

Lemma has_column_with_column_ne n m d f (d0 : DataFrame) :
  n ≠ m -> has_column m (with_column n d f d0) = has_column m d0.
Proof.
  intros Hne. unfold has_column, columns, with_column. simpl.
  apply bool_decide_ext. rewrite keys_dict_set. split; [|by right].
  intros [->|?]; done.
Qed.

Lemma fmap_fixed {A : Type} (f : A -> A) (l : list A) :
  Forall (fun x => f x = x) l -> f <$> l = l.
Proof.
  induction 1 as [|x l Hx _ IH]; [done|]. by rewrite fmap_cons, Hx, IH.
Qed.

Lemma set_purchase_url_null (r : Track) :
  t_purchase_url r = None -> set_purchase_url None r = r.
Proof. destruct r. simpl. by intros ->. Qed.

Lemma edit_row_set_processed track_id purchased price url (r : Track) :
  t_processed r = None ->
  edit_row track_id purchased price url (set_processed (Some false) r)
  = edit_row track_id purchased price url r.
Proof.
  destruct r. simpl. intros ->. unfold edit_row. simpl.
  by destruct (bool_decide _).
Qed.

(** On a well-formed catalog the steps that cast or add a column leave
    the cells as they read, and the rows after [_apply_track_edits] are
    the rows before, each through [edit_row]. *)
Lemma apply_track_edits_rows self track_id purchased price url :
  absent_cells_null (df self) ->
  rows (df (_apply_track_edits self track_id (Some (purchased, price, url))))
  = edit_row track_id purchased price url <$> rows (df self).
Proof.
  intros [Hurl Hproc]. unfold _apply_track_edits. cbn [df rows with_column].
  set (df1 := if decide (schema_get "price" Float64 (df self) = Null)
              then _ else _).
  assert (rows df1 = rows (df self)
          ∧ has_column "purchase_url" df1 = has_column "purchase_url" (df self)
          ∧ has_column "processed" df1 = has_column "processed" (df self))
    as (Hr1 & Hu1 & Hp1).
  { unfold df1. destruct (decide _); [|done].
    rewrite !has_column_with_column_ne by done.
    split; [apply list_fmap_id|done]. }
  clearbody df1.
  set (df2 := if negb (has_column "purchase_url" df1) then _ else _).
  assert (rows df2 = rows (df self)
          ∧ has_column "processed" df2 = has_column "processed" (df self))
    as (Hr2 & Hp2).
  { unfold df2. rewrite Hu1.
    destruct (has_column "purchase_url" (df self)) eqn:Hcol; simpl; [done|].
    rewrite has_column_with_column_ne by done. split; [|done].
    cbn [rows with_column]. rewrite Hr1. apply fmap_fixed.
    eapply Forall_impl; [exact (Hurl eq_refl)|].
    intros r. apply set_purchase_url_null. }
  clearbody df2.
  set (df3 := if negb (has_column "processed" df2) then _ else _).
  assert (edit_row track_id purchased price url <$> rows df3
          = edit_row track_id purchased price url <$> rows (df self)) as Hr3.
  { unfold df3. rewrite Hp2.
    destruct (has_column "processed" (df self)) eqn:Hcol; simpl;
      [by rewrite Hr2|].
    rewrite Hr2, <- list_fmap_compose. apply Forall_fmap_ext_1.
    eapply Forall_impl; [exact (Hproc eq_refl)|].
    intros r. apply edit_row_set_processed. }
  clearbody df3.
  destruct (decide _); simpl; [|done]. by rewrite list_fmap_id.
Qed.

(** The rule on the row an edit writes, and on a row it passes over. *)
Lemma edit_row_processed_ok track_id purchased price url (r : Track) :
  normalised url -> processed_ok r ->
  processed_ok (edit_row track_id purchased price url r).
Proof.
  intros Hurl Hr. unfold edit_row, processed_ok in *.
  destruct (bool_decide (t_id r = track_id)); simpl.
  - destruct price as [p|]; simpl; [|done].
    destruct Hurl as [->|Hurl]; [done|]. rewrite Hurl.
    by destruct url.
  - by rewrite Hr.
Qed.

Lemma edited_processed_ok catalog : edited catalog -> Forall processed_ok catalog.
Proof.
  intros (self & tid & p & pr & u & Hall & Hwf & Hu & ->).
  rewrite apply_track_edits_rows by done.
  apply Forall_fmap. eapply Forall_impl; [exact Hall|].
  intros r Hr. by apply edit_row_processed_ok.
Qed.

(** ** What the edit dialog hands over *)

Lemma lstrip_head (s : string) :
  lstrip s = "" ∨ ∃ c t, lstrip s = String c t ∧ isspace c = false.
Proof.
  induction s as [|c s IH]; simpl; [by left|].
  destruct (isspace c) eqn:Hc; [done|]. right. by exists c, s.
Qed.

Lemma rstrip_head (c : ascii) (t : string) :
  isspace c = false -> ∃ r, rstrip (String c t) = String c r.
Proof.
  intros Hc. simpl. rewrite Hc. destruct (rstrip t); by eexists.
Qed.

Lemma strip_head (s : string) :
  strip s = "" ∨ ∃ c r, strip s = String c r ∧ isspace c = false.
Proof.
  unfold strip. destruct (lstrip_head s) as [->|(c & t & -> & Hc)]; [by left|].
  right. destruct (rstrip_head c t Hc) as [r ->]. by exists c, r.
Qed.

(** A stripped text that is not empty is not blank. *)
Lemma stripped_not_blank (s : string) :
  strip s ≠ "" -> has_non_default_purchase_url (Some (strip s)) = true.
Proof.
  intros Hne. destruct (strip_head s) as [?|(c & r & -> & Hc)]; [done|].
  unfold has_non_default_purchase_url, strip. simpl. rewrite Hc.
  by destruct (rstrip_head c r Hc) as [r' ->].
Qed.

(** Whatever the dialog is dismissed with on save has a normalised URL. *)
Lemma on_button_pressed_normalised float_of_string button_id purchased
  price_input download_url_input purchased' price download_url :
  on_button_pressed float_of_string button_id purchased price_input
    download_url_input = Some (Some (purchased', price, download_url)) ->
  normalised download_url.
Proof.
  unfold on_button_pressed.
  destruct (decide (button_id = "edit-cancel")); [done|].
  destruct (decide (button_id ≠ "edit-save")); [done|].
  assert (normalised (if decide (strip download_url_input = "") then None
                      else Some (strip download_url_input))) as Hn.
  { destruct (decide _); [by left|]. right. by apply stripped_not_blank. }
  destruct (decide (strip price_input = "")); [by intros [= _ _ <-]|].
  destruct (float_of_string _); [by intros [= _ _ <-]|done].
Qed.

(** C1, as the code has it: the rule
    [processed == (price is not null) AND (purchase_url is non-null and
    not blank)] holds on every record of a catalog written by a
    reconciliation pass, and on every record of a catalog left by an
    edit-merge of a catalog on which it held, when the URL argument is
    null or has a character that is not whitespace, which is what the edit
    dialog hands over. *)
Theorem processed_invariant catalog :
  reconciled catalog ∨ edited catalog -> Forall processed_ok catalog.
Proof.
  intros [H|H]; [by apply reconciled_processed_ok|by apply edited_processed_ok].
Qed.

Lemma processed_invariant_witness :
  Forall processed_ok
    (rows (df (_apply_track_edits sample_app "Y"
                 (Some (true, Some 12.5%float, Some "https://buy/y"))))).
Proof.
  apply processed_invariant. right.
  exists sample_app, "Y", true, (Some 12.5%float), (Some "https://buy/y").
  split; [repeat constructor|]. split; [|split; [by right|done]].
  split; intros H; vm_compute in H; discriminate H.
Defined.

(** C1 as stated fails on an edit-merge handed a whitespace-only URL with
    a price: on a catalog where the rule holds, the target record gets
    [processed = true] although its URL is blank. *)
Lemma whitespace_url_edit_marks_processed :
  Forall processed_ok (rows (df sample_app))
  ∧ ∃ r, r ∈ rows (df (_apply_track_edits sample_app "Y"
                         (Some (false, Some 5%float, Some "   "))))
         ∧ t_id r = "Y"
         ∧ t_processed r = Some true
         ∧ is_track_processed (t_price r) (t_purchase_url r) = false.
Proof.
  split; [repeat constructor|].
  eexists. split; [vm_compute; apply list_elem_of_further, list_elem_of_here|].
  repeat split.
Qed.

(** ** Edit-merge, row by row *)

Lemma edit_row_frame track_id purchased price url (a : Track) :
  edit_frame track_id purchased price url a
    (edit_row track_id purchased price url a).
Proof.
  unfold edit_frame, edit_row.
  destruct (bool_decide_reflect (t_id a = track_id)) as [Heq|Hne]; simpl.
  - do 6 (split; [done|]). split; [|done]. intros _.
    do 3 (split; [done|]). split.
    + f_equal. symmetry. destruct price as [p|], url as [u|].
      * apply bool_decide_eq_true. split; by eexists.
      * apply bool_decide_eq_false. intros [_ [? ?]]. done.
      * apply bool_decide_eq_false. intros [[? ?] _]. done.
      * apply bool_decide_eq_false. intros [[? ?] _]. done.
    + intros Hurl. unfold processed_ok. simpl.
      destruct price as [p|]; simpl; [|done].
      destruct Hurl as [->|Hurl]; [done|]. rewrite Hurl. by destruct url.
  - do 6 (split; [done|]). split; [done|]. by intros _.
Qed.

(** C6, as the code has it: an edit-merge goes over the rows in place.
    On a well-formed catalog each row keeps its [id], [title], [artist],
    [genre], [playlists] and [soundcloud_url]; a row with the target
    identifier gets exactly the three owned fields given, and its
    [processed] is re-derived as (price is not null) and (purchase_url is
    not null), which is the rule of the derived column whenever the URL is
    null or not blank; any other row keeps its owned fields, and its
    [processed] too, except that a null [processed] is filled with
    false. *)
Theorem edit_merge_frame self track_id purchased price purchase_url :
  absent_cells_null (df self) ->
  Forall2 (edit_frame track_id purchased price purchase_url)
    (rows (df self))
    (rows (df (_apply_track_edits self track_id
                 (Some (purchased, price, purchase_url))))).
Proof.
  intros Hwf. rewrite apply_track_edits_rows by done.
  apply Forall2_fmap_r, Forall_Forall2_diag, Forall_forall.
  intros a _. apply edit_row_frame.
Qed.

Lemma edit_merge_frame_witness :
  Forall2 (edit_frame "X" true (Some 12.5%float) (Some "https://buy/x"))
    sample_prior
    (rows (df (_apply_track_edits sample_app "X"
                 (Some (true, Some 12.5%float, Some "https://buy/x"))))).
Proof.
  apply (edit_merge_frame sample_app).
  split; intros H; vm_compute in H; discriminate H.
Defined.

(** C6 as stated fails on a record with a null [processed]: editing [A]
    turns the null [processed] of [B] into false. *)
Lemma edit_merge_fills_null_processed :
  ∃ b b',
    rows (df sample_null_processed_app) !! 1%nat = Some b
    ∧ rows (df (_apply_track_edits sample_null_processed_app "A"
                  (Some (true, Some 12.5%float, Some "https://buy/a"))))
      !! 1%nat = Some b'
    ∧ t_id b = "B" ∧ t_id b' = "B"
    ∧ t_processed b = None
    ∧ t_processed b' = Some false.
Proof. do 2 eexists. repeat split. Qed.

(** ** Editing an identifier the catalog does not have *)

Lemma get_track_row_None self track_id :
  (forall row, row ∈ rows (df self) -> t_id row ≠ track_id) ->
  _get_track_row self track_id = None.
Proof.
  intros Habsent. unfold _get_track_row.
  induction (rows (df self)) as [|row rs IH]; [done|].
  rewrite filter_cons_False.
  - apply IH. intros r Hr. apply Habsent. by apply list_elem_of_further.
  - apply Habsent, list_elem_of_here.
Qed.

(** C7, as the code has it: for an identifier that no row of the catalog
    has, opening the editor returns normally, with no error, and leaves
    the application as it was: the dataframe, the file and the screens are
    the same, no edit screen is pushed and so no edit-merge follows. *)
Theorem edit_of_absent_id_is_silent self track_id :
  (forall row, row ∈ rows (df self) -> t_id row ≠ track_id) ->
  _open_editor_for_track self track_id = Ok self.
Proof.
  intros Habsent. unfold _open_editor_for_track.
  by rewrite get_track_row_None.
Qed.

Lemma edit_of_absent_id_is_silent_witness :
  _open_editor_for_track sample_app "does-not-exist" = Ok sample_app.
Proof.
  apply edit_of_absent_id_is_silent.
  intros row Hrow. vm_compute in Hrow.
  apply elem_of_cons in Hrow as [->|Hrow]; [done|].
  apply list_elem_of_singleton in Hrow as ->. done.
Defined.

(** C7 as stated fails: for an identifier the catalog does not have, the
    editor path raises nothing, and [_apply_track_edits] itself, which has
    no lookup, returns with the [price] column cast and the file
    rewritten. *)
Lemma absent_id_raises_no_error :
  _get_track_row sample_fresh_app "does-not-exist" = None
  ∧ (forall e,
       _open_editor_for_track sample_fresh_app "does-not-exist" ≠ Raise e)
  ∧ schema_get "price" Float64 (df sample_fresh_app) = Null
  ∧ schema_get "price" Float64
      (tracks_file (_apply_track_edits sample_fresh_app "does-not-exist"
                      (Some (true, None, None)))) = Float64.
Proof. split; [done|]. split; [done|]. split; reflexivity. Qed.

(** ** Which records a pass writes, and in which order *)

Lemma first_observation_inv i obs o :
  first_observation i obs = Some o ->
  o ∈ obs ∧ r_kind (snd o) = Some "track" ∧ r_id (snd o) = Some i.
Proof.
  intros [Hin Ho]%List.find_some. destruct o as [name track].
  split; [by apply list_elem_of_In|]. by apply observes_spec in Ho.
Qed.

(** The identifiers under which [all_tracks] ends up with a record are
    those that a record of track kind brought. *)
Lemma add_tracks_key_observed old obs s' i :
  add_tracks old obs [] = Ok s' ->
  i ∈ keys s'
  <-> ∃ name track, (name, track) ∈ obs ∧ r_kind track = Some "track"
                    ∧ r_id track = Some i.
Proof.
  intros Hs. pose proof (add_tracks_get_None _ _ _ _ i Hs eq_refl) as Hi.
  split.
  - intros Hin. destruct (first_observation i obs) as [[name track]|] eqn:Ho.
    + exists name, track. by apply first_observation_inv in Ho.
    + by apply dict_get_None in Hi.
  - intros (name & track & Hin & Hk & Hid).
    destruct (first_observation_Some _ _ _ _ Hin Hk Hid) as [o Ho].
    rewrite Ho in Hi. destruct Hi as [suffix Hi].
    destruct (decide (i ∈ keys s')) as [|Hn]; [done|].
    apply dict_get_None in Hn. congruence.
Qed.

(** X1: a pass writes one record for each identifier that a record of
    track kind brought in any page, and no other record: no identifier
    occurs twice in the catalog, and an identifier is in it exactly when
    some observed record of track kind has it. *)
Theorem catalog_ids_are_observed_ids old_df liked_pages playlist_pages catalog :
  create_new_df old_df liked_pages playlist_pages = Ok catalog ->
  NoDup (t_id <$> catalog)
  ∧ forall i,
      i ∈ t_id <$> catalog
      <-> ∃ name track,
            (name, track) ∈ observations liked_pages playlist_pages
            ∧ r_kind track = Some "track" ∧ r_id track = Some i.
Proof.
  intros (s & Hs & Hok & ->)%create_new_df_Ok.
  rewrite dict_ok_ids by done. split; [apply Hok|].
  intros i. by apply (add_tracks_key_observed _ _ _ _ Hs).
Qed.

Lemma catalog_ids_are_observed_ids_witness :
  NoDup (t_id <$> [sample_row "X" false None None "liked, Deep House";
                   sample_row "Z" false None None "liked"])
  ∧ forall i,
      i ∈ t_id <$> [sample_row "X" false None None "liked, Deep House";
                    sample_row "Z" false None None "liked"]
      <-> ∃ name track,
            (name, track)
            ∈ observations [[sample_track "X" None]]
                [[mkPlaylist "Deep House"
                    [sample_track "X" None; sample_track "Z" None]]]
            ∧ r_kind track = Some "track" ∧ r_id track = Some i.
Proof.
  apply (catalog_ids_are_observed_ids None). vm_compute. reflexivity.
Defined.

Lemma first_seen_ids_ext seen seen' obs :
  (forall x, x ∈ seen <-> x ∈ seen') ->
  first_seen_ids seen obs = first_seen_ids seen' obs.
Proof.
  revert seen seen'. induction obs as [|o obs IH]; intros seen seen' H; [done|].
  simpl. destruct (r_kind (snd o)) as [kind|]; [|by apply IH].
  destruct (r_id (snd o)) as [i|]; [|by apply IH].
  destruct (decide (kind = "track" ∧ i ∉ seen)) as [[Hk Hi]|Hn].
  - rewrite decide_True by (split; [done|by rewrite <- H]).
    f_equal. apply IH. intros x. rewrite !elem_of_cons, H. done.
  - rewrite decide_False by (rewrite <- H; done). by apply IH.
Qed.

Lemma keys_add_track track s old name s' :
  add_track track s old name = Ok s' ->
  keys s' = keys s ++ first_seen_ids (keys s) [(name, track)].
Proof.
  intros [(kind & Hk & Hne & ->)|(i & Hk & Hid & Hi)]%add_track_Ok; simpl.
  - rewrite Hk. destruct (r_id track).
    + rewrite decide_False by (by intros [? _]). by rewrite app_nil_r.
    + by rewrite app_nil_r.
  - rewrite Hk, Hid. destruct (dict_get i s) as [cur|] eqn:Hget.
    + destruct Hi as [suffix ->]. rewrite (keys_dict_set_old _ _ _ _ Hget).
      rewrite decide_False; [by rewrite app_nil_r|].
      intros [_ Hn]. apply dict_get_None in Hn. congruence.
    + subst s'. rewrite (dict_set_new _ _ _ Hget).
      rewrite decide_True by (split; [done|by apply dict_get_None]).
      unfold keys. by rewrite fmap_app.
Qed.

Lemma keys_add_tracks old obs s s' :
  add_tracks old obs s = Ok s' ->
  keys s' = keys s ++ first_seen_ids (keys s) obs.
Proof.
  revert s. induction obs as [|[name track] obs IH]; intros s.
  - intros [= <-]. simpl. by rewrite app_nil_r.
  - rewrite add_tracks_cons. simpl.
    destruct (add_track track s old name) as [s1|] eqn:H1; simpl; [|done].
    intros H. rewrite (IH _ H). apply keys_add_track in H1. rewrite H1.
    simpl in H1 |- *.
    destruct (r_kind track) as [kind|]; [|by rewrite app_nil_r].
    destruct (r_id track) as [i|]; [|by rewrite app_nil_r].
    destruct (decide (kind = "track" ∧ i ∉ keys s)); [|by rewrite app_nil_r].
    rewrite <- app_assoc. simpl. do 2 f_equal. apply first_seen_ids_ext.
    intros x. rewrite elem_of_app, list_elem_of_singleton, elem_of_cons. tauto.
Qed.

(** X2: the catalog of a pass lists the records in the order in which
    their identifiers were first observed, the liked pages before the
    playlist pages. *)
Theorem catalog_in_first_seen_order old_df liked_pages playlist_pages catalog :
  create_new_df old_df liked_pages playlist_pages = Ok catalog ->
  t_id <$> catalog
  = first_seen_ids [] (observations liked_pages playlist_pages).
Proof.
  intros (s & Hs & Hok & ->)%create_new_df_Ok.
  rewrite dict_ok_ids by done. apply (keys_add_tracks _ _ _ _ Hs).
Qed.

Lemma catalog_in_first_seen_order_witness :
  t_id <$> [sample_row "Z" false None None "liked, Deep House";
            sample_row "X" false None None "liked, Deep House"]
  = first_seen_ids []
      (observations [[sample_track "Z" None]; [sample_track "X" None]]
         [[mkPlaylist "Deep House"
             [sample_track "X" None; sample_track "Z" None]]]).
Proof.
  apply (catalog_in_first_seen_order None). vm_compute. reflexivity.
Defined.

(** Each record of the catalog is the one its first observation created,
    with a longer playlists string at most. *)
Lemma catalog_record_created old_df liked_pages playlist_pages catalog r :
  create_new_df old_df liked_pages playlist_pages = Ok catalog ->
  r ∈ catalog ->
  ∃ o suffix,
    first_observation (t_id r) (observations liked_pages playlist_pages)
    = Some o
    ∧ r = append_playlists suffix
            (new_track (snd o) (t_id r)
               (match old_df with
                | Some rows => load_old_tracks rows
                | None => ∅
                end)).
Proof.
  intros (s & Hs & Hok & ->)%create_new_df_Ok Hr.
  apply (dict_ok_values_get _ _ Hok) in Hr.
  pose proof (add_tracks_get_None _ _ _ _ (t_id r) Hs eq_refl) as Hfirst.
  destruct (first_observation (t_id r) _) as [o|]; [|congruence].
  destruct Hfirst as [suffix Hget]. exists o, suffix. split; [done|].
  congruence.
Qed.

(** X3: the remote fields of a record are those of the first observation
    of its identifier in the pass: title, SoundCloud URL, genre and artist
    come from the record that created it, and a later observation of the
    same identifier does not replace them. *)
Theorem remote_fields_first_seen old_df liked_pages playlist_pages catalog r :
  create_new_df old_df liked_pages playlist_pages = Ok catalog ->
  r ∈ catalog ->
  ∃ o, first_observation (t_id r) (observations liked_pages playlist_pages)
       = Some o
       ∧ t_title r = r_title (snd o)
       ∧ t_soundcloud_url r = r_permalink_url (snd o)
       ∧ t_genre r = r_genre (snd o)
       ∧ t_artist r
         = match r_user (snd o) with Some u => username u | None => None end.
Proof.
  intros Hc Hr.
  destruct (catalog_record_created _ _ _ _ _ Hc Hr) as (o & suffix & Ho & Hrec).
  exists o. split; [done|]. by rewrite Hrec.
Qed.

Lemma remote_fields_first_seen_witness :
  ∃ o, first_observation "X"
         (observations
            [[sample_track "X" None;
              mkRemoteTrack (Some "track") (Some "X") (Some "Renamed") None
                None None (Some "techno")]] [])
       = Some o
       ∧ Some "Night Drive" = r_title (snd o)
       ∧ Some "https://soundcloud.com/dj/night-drive"
         = r_permalink_url (snd o)
       ∧ Some "house" = r_genre (snd o)
       ∧ Some "dj"
         = match r_user (snd o) with Some u => username u | None => None end.
Proof.
  apply (remote_fields_first_seen None
           [[sample_track "X" None;
             mkRemoteTrack (Some "track") (Some "X") (Some "Renamed") None
               None None (Some "techno")]] []
           [sample_row "X" false None None "liked"]
           (sample_row "X" false None None "liked")).
  - vm_compute. reflexivity.
  - elem_of_list.
Defined.

(** X4: a pass keeps no record of the previous catalog whose identifier
    the remote pages no longer bring: the new catalog has no record with
    that identifier, whatever owned fields the old one held. *)
Theorem unobserved_record_dropped prior liked_pages playlist_pages catalog x :
  create_new_df (Some prior) liked_pages playlist_pages = Ok catalog ->
  x ∈ prior ->
  (forall name track,
     (name, track) ∈ observations liked_pages playlist_pages ->
     r_kind track = Some "track" -> r_id track ≠ Some (t_id x)) ->
  forall r, r ∈ catalog -> t_id r ≠ t_id x.
Proof.
  intros (s & Hs & Hok & ->)%create_new_df_Ok _ Hno r Hr Hid.
  assert (t_id x ∈ keys s) as Hin.
  { rewrite <- Hid, <- dict_ok_ids by done. by apply list_elem_of_fmap_2. }
  apply (add_tracks_key_observed _ _ _ _ Hs) in Hin
    as (name & track & Hobs & Hk & Hi).
  by apply (Hno name track).
Qed.

Lemma unobserved_record_dropped_witness :
  t_id (sample_row "Z" false None None "liked") ≠ "X".
Proof.
  apply (unobserved_record_dropped sample_prior [[sample_track "Z" None]] []
           [sample_row "Z" false None None "liked"]
           (sample_row "X" true (Some 9.99%float) (Some "u")
              "liked, Deep House")).
  - vm_compute. reflexivity.
  - elem_of_list.
  - intros name track Hin _. vm_compute in Hin.
    apply list_elem_of_singleton in Hin. injection Hin as -> ->. done.
  - elem_of_list.
Defined.

(** X5: on a first run, with no catalog file, every record is written
    with [purchased] false, no price and [processed] false, and with the
    purchase URL of the remote record that created it. *)
Theorem first_run_defaults liked_pages playlist_pages catalog r :
  create_new_df None liked_pages playlist_pages = Ok catalog ->
  r ∈ catalog ->
  t_purchased r = Some false ∧ t_price r = None ∧ t_processed r = Some false
  ∧ ∃ o, first_observation (t_id r) (observations liked_pages playlist_pages)
         = Some o
         ∧ t_purchase_url r = r_purchase_url (snd o).
Proof.
  intros Hc Hr.
  destruct (catalog_record_created _ _ _ _ _ Hc Hr) as (o & suffix & Ho & Hrec).
  rewrite Hrec. unfold new_track, owned_fields. rewrite lookup_empty. simpl.
  do 3 (split; [done|]). by exists o.
Qed.

Lemma first_run_defaults_witness :
  Some false = Some false ∧ (None : option float) = None
  ∧ Some (is_track_processed None (Some "https://buy/x")) = Some false
  ∧ ∃ o, first_observation "X"
           (observations [[sample_track "X" (Some "https://buy/x")]] [])
         = Some o
         ∧ Some "https://buy/x" = r_purchase_url (snd o).
Proof.
  apply (first_run_defaults [[sample_track "X" (Some "https://buy/x")]] []
           [sample_row "X" false None (Some "https://buy/x") "liked"]
           (sample_row "X" false None (Some "https://buy/x") "liked")).
  - vm_compute. reflexivity.
  - elem_of_list.
Defined.

(** ** Labels, as the playlist filter reads them *)

Lemma prefix_refl (s : string) : String.prefix s s = true.
Proof.
  induction s as [|c s IH]; simpl; [done|]. by destruct (ascii_dec c c).
Qed.

Lemma contains_unfold (needle hay : string) :
  contains needle hay
  = String.prefix needle hay
    || match hay with
       | EmptyString => false
       | String _ hay' => contains needle hay'
       end.
Proof. by destruct hay. Qed.

Lemma contains_app_r (needle before : string) :
  contains needle (before +:+ needle) = true.
Proof.
  induction before as [|c before IH].
  - change ("" +:+ needle) with needle.
    by rewrite contains_unfold, prefix_refl.
  - rewrite string_app_cons, contains_unfold, IH. apply orb_true_r.
Qed.

Lemma split_not_nil sep s : split sep s ≠ [].
Proof.
  destruct s as [|c s]; simpl; [done|].
  destruct (decide (c = sep)); [done|]. by destruct (split sep s).
Qed.

Lemma split_app_sep sep (a b : string) :
  split sep (a +:+ String sep b) = split sep a ++ split sep b.
Proof.
  induction a as [|c a IH].
  - change ("" +:+ String sep b) with (String sep b). simpl.
    by rewrite decide_True.
  - rewrite string_app_cons. simpl. rewrite IH.
    destruct (decide (c = sep)); [done|].
    pose proof (split_not_nil sep a). by destruct (split sep a).
Qed.

Lemma labels_app (q name : string) :
  labels (q +:+ ", " +:+ name) = labels q ++ labels (" " +:+ name).
Proof.
  unfold labels. change (", " +:+ name) with (String "," (" " +:+ name)).
  by rewrite split_app_sep, filter_app, fmap_app.
Qed.

Lemma in_playlist_labels (playlists selected : string) :
  selected ≠ ALL_PLAYLISTS ->
  _in_playlist (Some playlists) selected = true <-> selected ∈ labels playlists.
Proof.
  intros Hne. unfold _in_playlist. rewrite decide_False by done.
  apply bool_decide_eq_true.
Qed.

Lemma grown_trans p q r : grown p q -> grown q r -> grown p r.
Proof. intros Hpq Hqr. induction Hqr; [done|by constructor]. Qed.

Lemma grown_labels p q l : grown p q -> l ∈ labels p -> l ∈ labels q.
Proof.
  intros Hg Hl. induction Hg as [|q name _ IH]; [done|].
  rewrite labels_app, elem_of_app. by left.
Qed.

Lemma grown_prefix p q : grown p q -> ∃ rest, q = p +:+ rest.
Proof.
  induction 1 as [|q name _ [rest ->]].
  - exists "". by rewrite string_app_nil_r.
  - exists (rest +:+ ", " +:+ name). by rewrite string_app_assoc.
Qed.

Lemma grown_in_playlist p q selected :
  grown p q ->
  _in_playlist (Some p) selected = true ->
  _in_playlist (Some q) selected = true.
Proof.
  intros Hg. destruct (decide (selected = ALL_PLAYLISTS)) as [->|Hne]; [done|].
  rewrite !in_playlist_labels by done. by apply grown_labels.
Qed.

(** The outcomes of one call that returns, with what is appended. *)
Lemma add_track_Ok_label track s old name s' :
  add_track track s old name = Ok s' ->
  s' = s
  ∨ ∃ i, r_kind track = Some "track" ∧ r_id track = Some i
         ∧ match dict_get i s with
           | Some cur =>
               ∃ label,
                 (name = None ∧ label = "liked" ∨ name = Some label)
                 ∧ contains label (t_playlists cur) = false
                 ∧ s' = dict_set i (append_playlists (", " +:+ label) cur) s
           | None => s' = dict_set i (new_track track i old) s
           end.
Proof.
  rewrite add_track_new_track.
  destruct (r_kind track) as [kind|]; simpl; [|done].
  destruct (String.eqb_spec kind "track") as [->|Hkind]; simpl;
    [|intros [= <-]; by left].
  destruct (r_id track) as [i|]; simpl; [|done].
  destruct (dict_get i s) as [cur|] eqn:Hget.
  - destruct name as [name|].
    + destruct (contains name (t_playlists cur)) eqn:Hc; simpl;
        intros [= <-]; [by left|].
      right. exists i. rewrite Hget. do 2 (split; [done|]).
      exists name. split; [by right|done].
    + destruct (contains "liked" (t_playlists cur)) eqn:Hc; simpl;
        intros [= <-]; [by left|].
      right. exists i. rewrite Hget. do 2 (split; [done|]).
      exists "liked". split; [by left|done].
  - intros [= <-]. right. exists i. by rewrite Hget.
Qed.

(** One call on a key that is there: the record stays but for its
    playlists string, which at most gets one more [", name"]. *)
Lemma add_track_grown track s old name s' j v :
  add_track track s old name = Ok s' ->
  dict_get j s = Some v ->
  ∃ v', dict_get j s' = Some v' ∧ grown (t_playlists v) (t_playlists v').
Proof.
  intros [->|(i & _ & _ & Hi)]%add_track_Ok_label Hj.
  { exists v. split; [done|constructor]. }
  destruct (decide (i = j)) as [->|Hne].
  - rewrite Hj in Hi. destruct Hi as (label & _ & _ & ->).
    eexists. rewrite dict_get_set_eq. split; [done|].
    simpl. apply grown_step. constructor.
  - exists v. split; [|constructor].
    destruct (dict_get i s); [destruct Hi as (? & _ & _ & ->)|subst s'];
      by rewrite dict_get_set_ne.
Qed.

Lemma add_tracks_grown old obs s s' j v :
  add_tracks old obs s = Ok s' ->
  dict_get j s = Some v ->
  ∃ v', dict_get j s' = Some v' ∧ grown (t_playlists v) (t_playlists v').
Proof.
  revert s v. induction obs as [|o obs IH]; intros s v.
  - intros [= <-] Hj. exists v. split; [done|constructor].
  - rewrite add_tracks_cons.
    destruct (add_track (snd o) s old (fst o)) as [s1|] eqn:H1; simpl; [|done].
    intros H Hj.
    destruct (add_track_grown _ _ _ _ _ _ _ H1 Hj) as (v1 & Hj1 & Hg1).
    destruct (IH _ _ H Hj1) as (v' & Hj' & Hg'). exists v'.
    split; [done|]. by eapply grown_trans.
Qed.

(** A record created during the pass starts from ["liked"]. *)
Lemma add_tracks_created_grown old obs s s' j v' :
  add_tracks old obs s = Ok s' ->
  dict_get j s = None ->
  dict_get j s' = Some v' ->
  grown "liked" (t_playlists v').
Proof.
  revert s. induction obs as [|[name track] obs IH]; intros s.
  - intros [= <-] Hj Hj'. congruence.
  - rewrite add_tracks_cons. simpl.
    destruct (add_track track s old name) as [s1|] eqn:H1; simpl; [|done].
    intros H Hj Hj'. pose proof (add_track_get_None _ _ _ _ _ _ H1 Hj) as Hj1.
    destruct (observes j (name, track)); [|by apply (IH s1)].
    destruct (add_tracks_grown _ _ _ _ _ _ H Hj1) as (v & Hv & Hg).
    rewrite Hj' in Hv. by injection Hv as <-.
Qed.

(** X6: every record of a catalog that a pass writes carries the label
    ["liked"], first in its playlists string, whether or not its track was
    in the liked collection; the playlist filter reads ["liked"] among its
    labels. *)
Theorem every_record_labelled_liked old_df liked_pages playlist_pages catalog r :
  create_new_df old_df liked_pages playlist_pages = Ok catalog ->
  r ∈ catalog ->
  (∃ rest, t_playlists r = "liked" +:+ rest)
  ∧ _in_playlist (Some (t_playlists r)) "liked" = true.
Proof.
  intros (s & Hs & Hok & ->)%create_new_df_Ok Hr.
  apply (dict_ok_values_get _ _ Hok) in Hr.
  pose proof (add_tracks_created_grown _ _ _ _ _ _ Hs eq_refl Hr) as Hg.
  split; [by apply grown_prefix|]. by apply (grown_in_playlist "liked").
Qed.

Lemma every_record_labelled_liked_witness :
  (∃ rest, "liked, Deep House" = "liked" +:+ rest)
  ∧ _in_playlist (Some "liked, Deep House") "liked" = true.
Proof.
  apply (every_record_labelled_liked None []
           [[mkPlaylist "Deep House" [sample_track "X" None];
             mkPlaylist "Deep House" [sample_track "X" None]]]
           [sample_row "X" false None None "liked, Deep House"]
           (sample_row "X" false None None "liked, Deep House")).
  - vm_compute. reflexivity.
  - elem_of_list.
Defined.

(** X7: once an identifier is in the working catalog, observing the same
    record again in the same context changes nothing: whatever the first
    call appended, a second call finds it there and returns the dict as it
    is, so no label is appended twice. *)
Theorem repeated_observation_changes_nothing track s old name s1 i :
  r_id track = Some i ->
  is_Some (dict_get i s) ->
  add_track track s old name = Ok s1 ->
  add_track track s1 old name = Ok s1.
Proof.
  intros Hid [cur Hcur] H. pose proof H as H0.
  apply add_track_Ok_label in H as [->|(i' & Hk & Hid' & Hi)]; [done|].
  assert (i' = i) as -> by congruence. rewrite Hcur in Hi.
  destruct Hi as (label & Hlabel & _ & ->).
  rewrite add_track_new_track, Hk, Hid. simpl. rewrite dict_get_set_eq.
  assert (contains label (t_playlists cur +:+ ", " +:+ label) = true) as Hc.
  { rewrite <- string_app_assoc. apply contains_app_r. }
  destruct Hlabel as [[-> ->]| ->]; simpl; by rewrite Hc.
Qed.

Lemma repeated_observation_changes_nothing_witness :
  add_track (sample_track "X" None)
    [("X", sample_row "X" false None None "liked, Deep House")] ∅
    (Some "Deep House")
  = Ok [("X", sample_row "X" false None None "liked, Deep House")].
Proof.
  apply (repeated_observation_changes_nothing (sample_track "X" None)
           [("X", sample_row "X" false None None "liked")] ∅
           (Some "Deep House") _ "X").
  - reflexivity.
  - by eexists.
  - vm_compute. reflexivity.
Defined.

Lemma clean_label_labels (name : string) :
  clean_label name -> labels (" " +:+ name) = [name].
Proof.
  intros (Hsplit & Hstrip & Hne). unfold labels.
  change (" " +:+ name) with (String " " name). simpl. rewrite Hsplit.
  assert (strip (String " " name) = name) as Hs.
  { unfold strip. simpl. exact Hstrip. }
  rewrite filter_cons_True by (by rewrite Hs). rewrite filter_nil. simpl.
  by rewrite Hs.
Qed.

(** X8: within a pass the playlist filter never loses a label of a
    record: whatever value of the filter selected the record before an
    observation still selects it after any further observations. *)
Theorem filter_labels_only_grow old obs s s' i v selected :
  add_tracks old obs s = Ok s' ->
  dict_get i s = Some v ->
  _in_playlist (Some (t_playlists v)) selected = true ->
  ∃ v', dict_get i s' = Some v'
        ∧ _in_playlist (Some (t_playlists v')) selected = true.
Proof.
  intros Hs Hv Hsel.
  destruct (add_tracks_grown _ _ _ _ _ _ Hs Hv) as (v' & Hv' & Hg).
  exists v'. split; [done|]. by apply (grown_in_playlist (t_playlists v)).
Qed.

Lemma filter_labels_only_grow_witness :
  ∃ v', dict_get "X"
          [("X", sample_row "X" false None None "liked, Deep House, Techno")]
        = Some v'
        ∧ _in_playlist (Some (t_playlists v')) "Deep House" = true.
Proof.
  apply (filter_labels_only_grow ∅
           [(Some "Techno", sample_track "X" None)]
           [("X", sample_row "X" false None None "liked, Deep House")] _ "X"
           (sample_row "X" false None None "liked, Deep House")).
  - vm_compute. reflexivity.
  - vm_compute. reflexivity.
  - vm_compute. reflexivity.
Defined.

(** X9: a playlist name that reads back as one label (no comma, no
    whitespace at its ends, not empty) and does not occur inside the
    playlists string of a record already in the working catalog is
    appended by the observation, and the playlist filter set to that name
    then selects the record. *)
Theorem new_label_selects_record track s old name s' i cur :
  r_kind track = Some "track" ->
  r_id track = Some i ->
  dict_get i s = Some cur ->
  clean_label name ->
  contains name (t_playlists cur) = false ->
  add_track track s old (Some name) = Ok s' ->
  ∃ cur', dict_get i s' = Some cur'
          ∧ t_playlists cur' = t_playlists cur +:+ ", " +:+ name
          ∧ _in_playlist (Some (t_playlists cur')) name = true.
Proof.
  intros Hk Hid Hcur Hclean Hc. rewrite add_track_new_track, Hk, Hid. simpl.
  rewrite Hcur, Hc. simpl. intros [= <-]. eexists.
  rewrite dict_get_set_eq. split; [done|]. split; [done|]. simpl.
  destruct (decide (name = ALL_PLAYLISTS)) as [->|Hne]; [done|].
  apply in_playlist_labels; [done|].
  rewrite labels_app, (clean_label_labels _ Hclean), elem_of_app. right.
  apply list_elem_of_here.
Qed.

Lemma new_label_selects_record_witness :
  ∃ cur', dict_get "X"
            [("X", sample_row "X" false None None "liked, Deep House")]
          = Some cur'
          ∧ t_playlists cur' = "liked" +:+ ", " +:+ "Deep House"
          ∧ _in_playlist (Some (t_playlists cur')) "Deep House" = true.
Proof.
  apply (new_label_selects_record (sample_track "X" None)
           [("X", sample_row "X" false None None "liked")] ∅ "Deep House" _
           "X" (sample_row "X" false None None "liked")).
  - reflexivity.
  - reflexivity.
  - vm_compute. reflexivity.
  - repeat split; vm_compute; congruence.
  - vm_compute. reflexivity.
  - vm_compute. reflexivity.
Defined.

(** ** Blank purchase URLs *)

Lemma lstrip_nil_iff (s : string) :
  lstrip s = "" <-> Forall (fun c => isspace c = true) (chars s).
Proof.
  induction s as [|c s IH]; simpl; [split; [constructor|done]|].
  rewrite Forall_cons. destruct (isspace c) eqn:Hc.
  - rewrite IH. tauto.
  - split; [done|]. by intros [? _].
Qed.

Lemma strip_nil_iff (s : string) :
  strip s = "" <-> Forall (fun c => isspace c = true) (chars s).
Proof.
  rewrite <- lstrip_nil_iff. unfold strip.
  destruct (lstrip_head s) as [->|(c & t & -> & Hc)]; [done|].
  destruct (rstrip_head c t Hc) as [r ->]. done.
Qed.

Lemma all_space_or_not (l : list ascii) :
  Forall (fun c => isspace c = true) l ∨ Exists (fun c => isspace c = false) l.
Proof.
  induction l as [|c l [IH|IH]];
    [left; constructor| |right; by apply Exists_cons_tl].
  destruct (isspace c) eqn:Hc;
    [left; by constructor|right; by apply Exists_cons_hd].
Qed.

(** X10: [has_non_default_purchase_url] holds exactly of a URL that is
    not null and has at least one character that is not whitespace; null,
    the empty string and any run of whitespace count as no URL. *)
Theorem purchase_url_present_iff (purchase_url : option string) :
  has_non_default_purchase_url purchase_url = true
  <-> ∃ u, purchase_url = Some u ∧ Exists (fun c => isspace c = false) (chars u).
Proof.
  destruct purchase_url as [u|]; simpl; [|split; [done|by intros (? & ? & _)]].
  rewrite negb_true_iff. split.
  - intros Hne. exists u. split; [done|].
    destruct (all_space_or_not (chars u)) as [Hall|Hex]; [|done].
    apply strip_nil_iff in Hall. by rewrite Hall in Hne.
  - intros (? & [= <-] & Hex). destruct (String.eqb_spec (strip u) ""); [|done].
    apply strip_nil_iff in e. apply Exists_exists in Hex as (c & Hin & Hc).
    rewrite Forall_forall in e. rewrite (e c Hin) in Hc. done.
Qed.

(** ** A previous catalog with an identifier on several rows *)

Lemma load_old_tracks_snoc rows x :
  load_old_tracks (rows ++ [x]) = load_row (load_old_tracks rows) x.
Proof. unfold load_old_tracks. by rewrite fold_left_app. Qed.

(** X11: when the previous catalog has several rows with one identifier,
    [old_tracks] holds for it the owned fields of the last row that has an
    owned field off its default; rows with all owned fields at default
    neither enter nor erase an entry, and an identifier with no such row
    has no entry. *)
Theorem old_tracks_last_owned_row rows i :
  load_old_tracks rows !! i
  = owned_of
      <$> last (filter (fun row => t_id row = i
                                   ∧ all_default (owned_of row) = false) rows).
Proof.
  induction rows as [|x rows IH] using rev_ind; [done|].
  rewrite load_old_tracks_snoc, filter_app. unfold load_row.
  destruct (all_default (owned_of x)) eqn:Hx.
  - rewrite filter_cons_False by (intros [_ ?]; congruence).
    by rewrite filter_nil, app_nil_r.
  - destruct (decide (t_id x = i)) as [<-|Hne].
    + rewrite filter_cons_True by done.
      by rewrite filter_nil, last_snoc, lookup_insert_eq.
    + rewrite filter_cons_False by (by intros [? _]).
      by rewrite filter_nil, app_nil_r, lookup_insert_ne.
Qed.

(** ** The frame of an edit, whatever the schema *)

Lemma dict_set_set {V : Type} k (v : V) (d : dict V) :
  dict_set k v (dict_set k v d) = dict_set k v d.
Proof. apply dict_set_id, dict_get_set_eq. Qed.

Lemma schema_get_with_column_ne n m default d f (d0 : DataFrame) :
  n ≠ m -> schema_get m default (with_column n d f d0) = schema_get m default d0.
Proof.
  intros Hne. unfold schema_get, with_column. simpl.
  by rewrite dict_get_set_ne.
Qed.

Lemma schema_get_with_column_eq n default d f (d0 : DataFrame) :
  schema_get n default (with_column n d f d0) = d.
Proof. unfold schema_get, with_column. simpl. by rewrite dict_get_set_eq. Qed.

Lemma has_column_with_column_eq n d f (d0 : DataFrame) :
  has_column n (with_column n d f d0) = true.
Proof.
  unfold has_column, columns, with_column. simpl.
  apply bool_decide_eq_true, keys_dict_set. by left.
Qed.

Lemma has_column_with_column_mono n m d f (d0 : DataFrame) :
  has_column m d0 = true -> has_column m (with_column n d f d0) = true.
Proof.
  unfold has_column, columns, with_column. simpl.
  rewrite !bool_decide_eq_true, keys_dict_set. by right.
Qed.

Lemma with_column_fuse n d f g (d0 : DataFrame) :
  with_column n d g (with_column n d f d0) = with_column n d (g ∘ f) d0.
Proof.
  unfold with_column. simpl. by rewrite dict_set_set, <- list_fmap_compose.
Qed.

(** [_apply_track_edits] is the edit of the rows of the prepared frame. *)
Lemma apply_track_edits_prepare self track_id purchased price url :
  _apply_track_edits self track_id (Some (purchased, price, url))
  = let d := with_column "processed" Boolean
               (edit_row track_id purchased price url)
               (prepare_frame (df self)) in
    mkDJApp d d (screens self).
Proof. reflexivity. Qed.

Lemma prepare_frame_prepared d : prepared (prepare_frame d).
Proof.
  unfold prepare_frame, prepared.
  set (d1 := if decide (schema_get "price" Float64 d = Null) then _ else d).
  assert (schema_get "price" Float64 d1 ≠ Null) as H1.
  { unfold d1. destruct (decide _); [|done].
    by rewrite schema_get_with_column_eq. }
  clearbody d1.
  set (d2 := if negb (has_column "purchase_url" d1) then _ else d1).
  assert (schema_get "price" Float64 d2 ≠ Null
          ∧ has_column "purchase_url" d2 = true) as [H2 H2'].
  { unfold d2. destruct (has_column "purchase_url" d1) eqn:Hc; simpl; [done|].
    by rewrite schema_get_with_column_ne, has_column_with_column_eq. }
  clearbody d2.
  set (d3 := if negb (has_column "processed" d2) then _ else d2).
  assert (schema_get "price" Float64 d3 ≠ Null
          ∧ has_column "purchase_url" d3 = true
          ∧ has_column "processed" d3 = true) as (H3 & H3' & H3'').
  { unfold d3. destruct (has_column "processed" d2) eqn:Hc; simpl; [done|].
    rewrite schema_get_with_column_ne, has_column_with_column_eq by done.
    by rewrite has_column_with_column_mono. }
  clearbody d3.
  destruct (decide _); [|done].
  rewrite schema_get_with_column_ne, schema_get_with_column_eq by done.
  by rewrite has_column_with_column_eq, has_column_with_column_mono.
Qed.

Lemma prepare_frame_fixed d : prepared d -> prepare_frame d = d.
Proof.
  intros (H1 & H2 & H3 & H4). unfold prepare_frame. cbn zeta.
  destruct (decide (schema_get "price" Float64 d = Null)) as [|_]; [done|].
  rewrite H2. cbn [negb]. rewrite H3. cbn [negb]. by destruct (decide _).
Qed.

Lemma with_column_processed_prepared f d :
  prepared d -> prepared (with_column "processed" Boolean f d).
Proof.
  intros (H1 & H2 & H3 & H4). unfold prepared.
  rewrite !schema_get_with_column_ne by done.
  by rewrite has_column_with_column_mono, has_column_with_column_eq.
Qed.

(** Two edits in a row are one pass of both over the prepared frame. *)
Lemma apply_track_edits_twice self a e1 b e2 :
  df (_apply_track_edits
        (_apply_track_edits self a (Some e1)) b (Some e2))
  = with_column "processed" Boolean
      (edit_row b e2.1.1 e2.1.2 e2.2 ∘ edit_row a e1.1.1 e1.1.2 e1.2)
      (prepare_frame (df self)).
Proof.
  destruct e1 as [[p1 pr1] u1], e2 as [[p2 pr2] u2].
  rewrite !apply_track_edits_prepare. cbn [df fst snd].
  rewrite prepare_frame_fixed
    by apply with_column_processed_prepared, prepare_frame_prepared.
  apply with_column_fuse.
Qed.

Lemma with_column_ext n d f g (d0 : DataFrame) :
  (forall r, f r = g r) -> with_column n d f d0 = with_column n d g d0.
Proof.
  intros H. unfold with_column. f_equal.
  apply Forall_fmap_ext_1, Forall_forall. intros r _. apply H.
Qed.

Lemma edit_row_same_id track_id p1 pr1 u1 p2 pr2 u2 (r : Track) :
  edit_row track_id p2 pr2 u2 (edit_row track_id p1 pr1 u1 r)
  = edit_row track_id p2 pr2 u2 r.
Proof.
  unfold edit_row.
  destruct (bool_decide_reflect (t_id r = track_id)) as [Heq|Hne]; simpl.
  - by rewrite bool_decide_true.
  - rewrite bool_decide_false by done. unfold set_processed. simpl.
    by destruct (t_processed r).
Qed.

Lemma edit_row_commute a p1 pr1 u1 b p2 pr2 u2 (r : Track) :
  a ≠ b ->
  edit_row b p2 pr2 u2 (edit_row a p1 pr1 u1 r)
  = edit_row a p1 pr1 u1 (edit_row b p2 pr2 u2 r).
Proof.
  intros Hab. unfold edit_row.
  destruct (bool_decide_reflect (t_id r = a)) as [Ha|Ha];
    destruct (bool_decide_reflect (t_id r = b)) as [Hb|Hb]; simpl.
  - congruence.
  - by rewrite bool_decide_false, bool_decide_true.
  - by rewrite bool_decide_true, bool_decide_false.
  - rewrite !bool_decide_false by done. unfold set_processed. simpl.
    by destruct (t_processed r).
Qed.

(** X12: the last edit of a track wins. Two edit-merges of one
    identifier leave the dataframe, the file and the screens exactly as
    the second one alone does; in particular saving the same edit twice is
    the same as saving it once. *)
Theorem last_edit_wins self track_id e1 e2 :
  _apply_track_edits (_apply_track_edits self track_id (Some e1)) track_id
    (Some e2)
  = _apply_track_edits self track_id (Some e2).
Proof.
  assert (df (_apply_track_edits
                (_apply_track_edits self track_id (Some e1)) track_id (Some e2))
          = df (_apply_track_edits self track_id (Some e2))) as Hdf.
  { rewrite apply_track_edits_twice.
    destruct e1 as [[p1 pr1] u1], e2 as [[p2 pr2] u2]. simpl.
    apply with_column_ext. intros r. apply edit_row_same_id. }
  destruct e1 as [[p1 pr1] u1], e2 as [[p2 pr2] u2].
  rewrite (apply_track_edits_prepare (_apply_track_edits _ _ _)).
  rewrite (apply_track_edits_prepare (_apply_track_edits _ _ _)) in Hdf.
  cbn [df] in Hdf. cbn zeta. rewrite Hdf. reflexivity.
Qed.

(** X13: edit-merges of two different tracks commute: applied in either
    order they leave the same dataframe, file and screens. *)
Theorem edits_of_different_tracks_commute self a e1 b e2 :
  a ≠ b ->
  _apply_track_edits (_apply_track_edits self a (Some e1)) b (Some e2)
  = _apply_track_edits (_apply_track_edits self b (Some e2)) a (Some e1).
Proof.
  intros Hab.
  assert (df (_apply_track_edits (_apply_track_edits self a (Some e1)) b (Some e2))
          = df (_apply_track_edits (_apply_track_edits self b (Some e2)) a
                  (Some e1))) as Hdf.
  { rewrite !apply_track_edits_twice. apply with_column_ext. intros r.
    by apply edit_row_commute. }
  destruct e1 as [[p1 pr1] u1], e2 as [[p2 pr2] u2].
  rewrite (apply_track_edits_prepare (_apply_track_edits _ a _)).
  rewrite (apply_track_edits_prepare (_apply_track_edits _ b _)).
  rewrite (apply_track_edits_prepare (_apply_track_edits _ a _)) in Hdf.
  rewrite (apply_track_edits_prepare (_apply_track_edits _ b _)) in Hdf.
  cbn [df] in Hdf. cbn zeta. rewrite Hdf. reflexivity.
Qed.

Lemma edits_of_different_tracks_commute_witness :
  _apply_track_edits
    (_apply_track_edits sample_app "X" (Some (false, None, None)))
    "Y" (Some (true, Some 3.5%float, Some "https://buy/y"))
  = _apply_track_edits
      (_apply_track_edits sample_app "Y"
         (Some (true, Some 3.5%float, Some "https://buy/y")))
      "X" (Some (false, None, None)).
Proof. by apply edits_of_different_tracks_commute. Defined.

Lemma same_remote_fmap (f : Track -> Track) (l : list Track) :
  (forall r, same_remote r (f r)) -> Forall2 same_remote l (f <$> l).
Proof.
  intros H. apply Forall2_fmap_r, Forall_Forall2_diag, Forall_forall.
  intros r _. apply H.
Qed.

Lemma same_remote_trans a b c : same_remote a b -> same_remote b c -> same_remote a c.
Proof. unfold same_remote. intuition congruence. Qed.

Lemma Forall2_same_remote_trans l1 l2 l3 :
  Forall2 same_remote l1 l2 -> Forall2 same_remote l2 l3 ->
  Forall2 same_remote l1 l3.
Proof.
  intros H12. revert l3. induction H12 as [|a b l1 l2 Hab _ IH]; intros l3 H23.
  - by inversion H23.
  - inversion H23 as [|? c ? l3' Hbc H23']; subst. constructor.
    + by eapply same_remote_trans.
    + by apply IH.
Qed.

Lemma same_remote_refl l : Forall2 same_remote l l.
Proof. apply Forall_Forall2_diag, Forall_forall. by intros r _. Qed.

Lemma prepare_frame_same_remote d :
  Forall2 same_remote (rows d) (rows (prepare_frame d)).
Proof.
  unfold prepare_frame.
  set (d1 := if decide (schema_get "price" Float64 d = Null) then _ else d).
  assert (Forall2 same_remote (rows d) (rows d1)) as H1.
  { unfold d1. destruct (decide _); [|apply same_remote_refl].
    by apply same_remote_fmap. }
  clearbody d1.
  set (d2 := if negb (has_column "purchase_url" d1) then _ else d1).
  assert (Forall2 same_remote (rows d) (rows d2)) as H2.
  { unfold d2. destruct (negb _); [|done].
    eapply Forall2_same_remote_trans; [exact H1|]. by apply same_remote_fmap. }
  clearbody d2.
  set (d3 := if negb (has_column "processed" d2) then _ else d2).
  assert (Forall2 same_remote (rows d) (rows d3)) as H3.
  { unfold d3. destruct (negb _); [|done].
    eapply Forall2_same_remote_trans; [exact H2|]. by apply same_remote_fmap. }
  clearbody d3.
  destruct (decide _); [|done].
  eapply Forall2_same_remote_trans; [exact H3|]. by apply same_remote_fmap.
Qed.

Lemma edit_row_same_remote track_id purchased price url (r : Track) :
  same_remote r (edit_row track_id purchased price url r).
Proof. unfold edit_row. by destruct (bool_decide _). Qed.

(** X14: an edit-merge never adds, removes or reorders rows and never
    touches the identifier or a remote field, whatever the schema of the
    catalog: the rows after correspond one to one, in order, to the rows
    before, each with the same [id], [title], [artist], [genre],
    [playlists] and [soundcloud_url]. *)
Theorem edit_keeps_rows_and_remote_fields self track_id result :
  Forall2 same_remote (rows (df self))
    (rows (df (_apply_track_edits self track_id result))).
Proof.
  destruct result as [[[purchased price] url]|]; [|apply same_remote_refl].
  rewrite apply_track_edits_prepare. cbn [df rows with_column].
  eapply Forall2_same_remote_trans; [apply prepare_frame_same_remote|].
  apply same_remote_fmap, edit_row_same_remote.
Qed.

(** X15: after an edit-merge the file holds exactly the dataframe in
    memory, the frame has the [purchase_url] and [processed] columns,
    neither the [price] nor the [purchase_url] column is of dtype [Null],
    and every column the catalog had is still there. *)
Theorem edit_leaves_typed_persisted_frame self track_id edit :
  let self' := _apply_track_edits self track_id (Some edit) in
  tracks_file self' = df self'
  ∧ prepared (df self')
  ∧ forall column,
      has_column column (df self) = true ->
      has_column column (df self') = true.
Proof.
  destruct edit as [[purchased price] url]. rewrite apply_track_edits_prepare.
  cbn [df tracks_file]. split; [done|].
  split; [apply with_column_processed_prepared, prepare_frame_prepared|].
  intros column Hc. apply has_column_with_column_mono.
  unfold prepare_frame.
  repeat match goal with
         | |- context [if ?b then _ else _] => destruct b
         end;
    repeat apply has_column_with_column_mono; done.
Qed.

(** ** The dialog and the edit it triggers *)

(** Opening the editor of [X] on the sample application pushes the
    dialog that [sample_editing_app] has on its stack. *)
Lemma open_editor_sample :
  _open_editor_for_track sample_app "X" = Ok sample_editing_app.
Proof. reflexivity. Qed.

(** X16: cancelling the dialog, a button that is neither cancel nor
    save, and a save whose price text is not blank and does not parse as a
    float all leave the dataframe and the file as they were: no
    edit-merge runs. Cancelling closes the dialog, which is popped from
    the screen stack; in the other two cases the dialog stays open and the
    screen stack is as it was. *)
Theorem rejected_edit_changes_nothing float_of_string self track_id button_id
  purchased price_input download_url_input :
  button_id ≠ "edit-save"
  ∨ (strip price_input ≠ "" ∧ float_of_string (strip price_input) = None) ->
  df (edit_dialog float_of_string self track_id button_id purchased
        price_input download_url_input) = df self
  ∧ tracks_file (edit_dialog float_of_string self track_id button_id purchased
                   price_input download_url_input) = tracks_file self
  ∧ screens (edit_dialog float_of_string self track_id button_id purchased
               price_input download_url_input)
    = if decide (button_id = "edit-cancel") then tail (screens self)
      else screens self.
Proof.
  unfold edit_dialog, on_button_pressed. intros Hrej.
  destruct (decide (button_id = "edit-cancel")); [done|].
  destruct (decide (button_id ≠ "edit-save")); [done|].
  destruct Hrej as [Hb|[Hp Hf]]; [done|].
  rewrite decide_False by done. by rewrite Hf.
Qed.

Lemma rejected_edit_changes_nothing_witness :
  df (edit_dialog (fun _ => None) sample_editing_app "X" "edit-save" true
        "abc" "https://buy/x") = df sample_editing_app
  ∧ tracks_file (edit_dialog (fun _ => None) sample_editing_app "X"
                   "edit-save" true "abc" "https://buy/x")
    = tracks_file sample_editing_app
  ∧ screens (edit_dialog (fun _ => None) sample_editing_app "X" "edit-save"
               true "abc" "https://buy/x")
    = if decide ("edit-save" = "edit-cancel")
      then tail (screens sample_editing_app)
      else screens sample_editing_app.
Proof.
  apply rejected_edit_changes_nothing. right. split; [|done].
  vm_compute. congruence.
Defined.

(** X17: an edit made through the dialog keeps the rule of the derived
    column. On a well-formed catalog where
    [processed == (price is not null) AND (purchase_url is not blank)]
    holds of every row, it still holds of every row after any button of
    the dialog with any texts in its fields, because the dialog strips the
    URL text and hands over null for a blank one. *)
Theorem edit_through_dialog_keeps_rule float_of_string self track_id button_id
  purchased price_input download_url_input :
  absent_cells_null (df self) ->
  Forall processed_ok (rows (df self)) ->
  Forall processed_ok
    (rows (df (edit_dialog float_of_string self track_id button_id purchased
                 price_input download_url_input))).
Proof.
  intros Hwf Hall. unfold edit_dialog.
  destruct (on_button_pressed _ _ _ _ _) as [[[[p pr] u]|]|] eqn:Hb; [|done..].
  apply on_button_pressed_normalised in Hb. apply edited_processed_ok.
  by exists (pop_screen self), track_id, p, pr, u.
Qed.

Lemma edit_through_dialog_keeps_rule_witness :
  Forall processed_ok
    (rows (df (edit_dialog (fun _ => Some 7.5%float) sample_app "Y" "edit-save"
                 false "7.5" "   "))).
Proof.
  apply edit_through_dialog_keeps_rule.
  - split; intros H; vm_compute in H; discriminate H.
  - repeat constructor.
Defined.

(** ** Looking a row up *)

(** X18: [_get_track_row] returns the first row of the dataframe that
    has the identifier: the rows before it have other identifiers; and it
    returns nothing exactly when no row has the identifier. *)
Theorem get_track_row_first_match self track_id :
  match _get_track_row self track_id with
  | Some row =>
      ∃ before after,
        rows (df self) = before ++ row :: after
        ∧ t_id row = track_id
        ∧ Forall (fun r => t_id r ≠ track_id) before
  | None => Forall (fun r => t_id r ≠ track_id) (rows (df self))
  end.
Proof.
  unfold _get_track_row. induction (rows (df self)) as [|r rs IH]; [constructor|].
  destruct (decide (t_id r = track_id)) as [Heq|Hne].
  - rewrite filter_cons_True by done. exists [], rs. by repeat split.
  - rewrite filter_cons_False by done.
    destruct (filter _ rs) as [|row ?].
    + by constructor.
    + destruct IH as (before & after & -> & Hid & Hbefore).
      exists (r :: before), after. split; [done|]. split; [done|].
      by constructor.
Qed.

Lemma edit_leaves_typed_persisted_frame_witness :
  tracks_file (_apply_track_edits sample_fresh_app "Y" (Some (true, None, None)))
  = df (_apply_track_edits sample_fresh_app "Y" (Some (true, None, None)))
  ∧ prepared (df (_apply_track_edits sample_fresh_app "Y"
                    (Some (true, None, None))))
  ∧ forall column,
      has_column column (df sample_fresh_app) = true ->
      has_column column
        (df (_apply_track_edits sample_fresh_app "Y" (Some (true, None, None))))
      = true.
Proof. apply (edit_leaves_typed_persisted_frame sample_fresh_app). Defined.

(** ** Deriving the [processed] column at load time *)

Section ensure_processed_facts.
Variable is_whitespace : ascii -> bool.

Lemma ensure_processed_rows self persist :
  rows (df (_ensure_processed_column is_whitespace self persist))
  = (fun row =>
       set_processed
         (Some (processed_expr is_whitespace (df self) row)) row)
    <$> rows (df self).
Proof. reflexivity. Qed.

Lemma processed_expr_true d row :
  processed_expr is_whitespace d row = true ->
  is_Some (t_price row) ∧ ∃ u, t_purchase_url row = Some u ∧ u ≠ "".
Proof.
  unfold processed_expr. intros [Hp Hu]%andb_true_iff. split.
  - destruct (has_column "price" d); [|done]. by destruct (t_price row).
  - destruct (has_column "purchase_url" d); [|done].
    destruct (t_purchase_url row) as [u|]; [|done].
    exists u. split; [done|]. by intros ->.
Qed.

(** X19: after [_ensure_processed_column] the frame has a [processed]
    column with no null in it; each row is the row before with its
    [processed] cell rewritten and nothing else changed, and the cell is
    true only on a row that has a price and a purchase URL that is not the
    empty string. *)
Theorem ensure_processed_never_null self persist :
  has_column "processed"
    (df (_ensure_processed_column is_whitespace self persist)) = true
  ∧ Forall2
      (fun a b =>
         ∃ v, b = set_processed (Some v) a
              ∧ (v = true ->
                 is_Some (t_price a)
                 ∧ ∃ u, t_purchase_url a = Some u ∧ u ≠ ""))
      (rows (df self))
      (rows (df (_ensure_processed_column is_whitespace self persist))).
Proof.
  split; [apply has_column_with_column_eq|].
  rewrite ensure_processed_rows.
  apply Forall2_fmap_r, Forall_Forall2_diag, Forall_forall. intros a _.
  eexists. split; [done|]. apply processed_expr_true.
Qed.

Lemma lstrip_chars_agree (u : string) :
  Forall (fun c => is_whitespace c = isspace c) (chars u) ->
  lstrip_chars is_whitespace u = lstrip u.
Proof.
  induction u as [|c u IH]; simpl; [done|].
  intros [Hc Hu]%Forall_cons. rewrite Hc. by rewrite IH.
Qed.

Lemma rstrip_chars_agree (u : string) :
  Forall (fun c => is_whitespace c = isspace c) (chars u) ->
  rstrip_chars is_whitespace u = rstrip u.
Proof.
  induction u as [|c u IH]; simpl; [done|].
  intros [Hc Hu]%Forall_cons. by rewrite Hc, IH.
Qed.

Lemma chars_lstrip (P : ascii -> Prop) (u : string) :
  Forall P (chars u) -> Forall P (chars (lstrip u)).
Proof.
  induction u as [|c u IH]; simpl; [done|].
  intros Hall. destruct (isspace c); [|done].
  apply IH. by apply Forall_cons in Hall as [_ ?].
Qed.

Lemma strip_chars_agree (u : string) :
  Forall (fun c => is_whitespace c = isspace c) (chars u) ->
  strip_chars is_whitespace u = strip u.
Proof.
  intros Hall. unfold strip_chars, strip. rewrite lstrip_chars_agree by done.
  by apply rstrip_chars_agree, chars_lstrip.
Qed.

(** X20: the column derived at load time follows the rule of the
    reconciliation pass wherever the two notions of whitespace agree. On
    a frame with the [price] and [purchase_url] columns, if the characters
    that Polars strips are those Python's [str.strip] strips among the
    characters of each purchase URL, then after
    [_ensure_processed_column] every row has
    [processed == is_track_processed(price, purchase_url)]. *)
Theorem ensure_processed_follows_rule self persist :
  has_column "price" (df self) = true ->
  has_column "purchase_url" (df self) = true ->
  Forall (fun row =>
            forall u, t_purchase_url row = Some u ->
              Forall (fun c => is_whitespace c = isspace c) (chars u))
    (rows (df self)) ->
  Forall processed_ok
    (rows (df (_ensure_processed_column is_whitespace self persist))).
Proof.
  intros Hprice Hurl Hagree. rewrite ensure_processed_rows.
  apply Forall_fmap. eapply Forall_impl; [exact Hagree|].
  intros row Hrow. unfold processed_ok, processed_expr, is_track_processed.
  simpl. rewrite Hprice, Hurl. f_equal.
  destruct (t_price row); simpl; [|done].
  destruct (t_purchase_url row) as [u|] eqn:Hu; simpl; [|done].
  rewrite (strip_chars_agree u) by (by apply (Hrow u)).
  by destruct (strip u).
Qed.

(** X21: [_ensure_processed_column] is idempotent: run again on its own
    outcome, with either value of [persist_if_missing], it leaves the
    dataframe, the file and the screens as they are. *)
Theorem ensure_processed_idempotent self persist persist' :
  _ensure_processed_column is_whitespace
    (_ensure_processed_column is_whitespace self persist) persist'
  = _ensure_processed_column is_whitespace self persist.
Proof.
  unfold _ensure_processed_column at 1. cbn [df tracks_file screens].
  set (self' := _ensure_processed_column is_whitespace self persist).
  assert (has_column "processed" (df self') = true) as ->
    by apply has_column_with_column_eq.
  rewrite andb_false_r.
  assert (with_column "processed" Boolean
            (fun row =>
               set_processed
                 (Some (processed_expr is_whitespace (df self') row)) row)
            (df self') = df self') as ->; [|by destruct self'].
  unfold self', _ensure_processed_column. cbn [df].
  rewrite with_column_fuse. apply with_column_ext. intros row.
  unfold processed_expr. simpl.
  by rewrite !has_column_with_column_ne.
Qed.

(** X22: once the [processed] column has been derived at load time, an
    edit-merge changes the rows of its target and no other: on a frame
    whose [purchase_url] cells read null when the column is missing, every
    row with another identifier is after the edit exactly the row it was
    before. *)
Theorem edit_after_load_touches_target_only self persist track_id edit :
  (has_column "purchase_url" (df self) = false ->
   Forall (fun r => t_purchase_url r = None) (rows (df self))) ->
  Forall2 (fun a b => t_id a ≠ track_id -> b = a)
    (rows (df (_ensure_processed_column is_whitespace self persist)))
    (rows (df (_apply_track_edits
                 (_ensure_processed_column is_whitespace self persist)
                 track_id (Some edit)))).
Proof.
  intros Hurl. destruct edit as [[purchased price] url].
  rewrite apply_track_edits_rows.
  - apply Forall2_fmap_r, Forall_Forall2_diag.
    rewrite ensure_processed_rows. apply Forall_fmap, Forall_forall.
    intros a _ Hne. simpl in Hne. unfold edit_row. simpl.
    by rewrite bool_decide_false.
  - split.
    + unfold _ensure_processed_column. cbn [df].
      rewrite has_column_with_column_ne by done. intros Hc.
      cbn [rows with_column]. apply Forall_fmap.
      eapply Forall_impl; [exact (Hurl Hc)|]. done.
    + intros Hc. unfold _ensure_processed_column in Hc. cbn [df] in Hc.
      by rewrite has_column_with_column_eq in Hc.
Qed.
End ensure_processed_facts.

Lemma ensure_processed_follows_rule_witness :
  Forall processed_ok
    (rows (df (_ensure_processed_column isspace sample_null_processed_app
                 true))).
Proof.
  apply ensure_processed_follows_rule.
  - reflexivity.
  - reflexivity.
  - repeat constructor; intros u _;
      apply Forall_forall; intros c _; reflexivity.
Defined.

Lemma edit_after_load_touches_target_only_witness :
  Forall2 (fun a b => t_id a ≠ "A" -> b = a)
    (rows (df (_ensure_processed_column isspace sample_null_processed_app
                 true)))
    (rows (df (_apply_track_edits
                 (_ensure_processed_column isspace sample_null_processed_app
                    true)
                 "A" (Some (true, Some 2.5%float, Some "https://buy/a"))))).
Proof.
  apply edit_after_load_touches_target_only.
  intros H. vm_compute in H. discriminate H.
Defined.

(** ** The rows the table shows *)

(** The loop of [_populate_table] from any table and count it has
    reached. *)
Lemma populate_table_fold (f : Filters) (catalog table : list Track) (n : nat) :
  fold_left
    (fun '(table, matched_count) row =>
       if negb (_in_playlist (Some (t_playlists row)) (current_playlist f))
       then (table, matched_count) else
       if negb (_matches_purchased (t_purchased row) (current_purchased f))
       then (table, matched_count) else
       if negb (_matches_processed (t_processed row) (current_processed f))
       then (table, matched_count) else
       if negb (_matches_track_name (t_title row) (track_name_query f))
       then (table, matched_count) else
       (table ++ [row], S matched_count))
    catalog (table, n)
  = (table ++ filter (fun row => matches f row = true) catalog,
     (n + length (filter (fun row => matches f row = true) catalog))%nat).
Proof.
  revert table n. induction catalog as [|row catalog IH]; intros table n.
  - simpl. by rewrite app_nil_r, Nat.add_0_r.
  - cbn [fold_left]. destruct (matches f row) eqn:Hm.
    + rewrite filter_cons_True by done. unfold matches in Hm.
      apply andb_true_iff in Hm as [Hm H4].
      apply andb_true_iff in Hm as [Hm H3].
      apply andb_true_iff in Hm as [H1 H2].
      rewrite H1, H2, H3, H4. cbn [negb]. rewrite IH, <- app_assoc. simpl.
      f_equal. lia.
    + rewrite filter_cons_False by congruence. unfold matches in Hm.
      destruct (_in_playlist _ _); cbn [negb]; [|apply IH].
      destruct (_matches_purchased _ _); cbn [negb]; [|apply IH].
      destruct (_matches_processed _ _); cbn [negb]; [|apply IH].
      destruct (_matches_track_name _ _); cbn [negb]; [done|apply IH].
Qed.

Lemma populate_table_matches (f : Filters) (catalog : list Track) :
  _populate_table catalog f
  = (filter (fun row => matches f row = true) catalog,
     length (filter (fun row => matches f row = true) catalog)).
Proof. unfold _populate_table. by rewrite populate_table_fold. Qed.

(** X23: the table shows exactly the rows that pass all four filters
    (playlist, purchased, processed, title search), in the order of the
    catalog, and the count it displays is the number of rows shown. *)
Theorem table_shows_matching_rows (f : Filters) (catalog : list Track) :
  let '(table, matched_count) := _populate_table catalog f in
  matched_count = length table
  ∧ table `sublist_of` catalog
  ∧ forall row,
      row ∈ table
      <-> row ∈ catalog
          ∧ _in_playlist (Some (t_playlists row)) (current_playlist f) = true
          ∧ _matches_purchased (t_purchased row) (current_purchased f) = true
          ∧ _matches_processed (t_processed row) (current_processed f) = true
          ∧ _matches_track_name (t_title row) (track_name_query f) = true.
Proof.
  rewrite populate_table_matches. split; [done|].
  split; [apply sublist_filter|].
  intros row. rewrite list_elem_of_filter. unfold matches.
  rewrite !andb_true_iff. tauto.
Qed.

(** X24: the "Purchased" and "Not purchased" views split the "All"
    view: with the other filters fixed, the rows shown under "Purchased"
    are the rows of the "All" view whose [purchased] cell is true, those
    under "Not purchased" the rows whose cell is false or null, and the
    two counts add up to the count of the "All" view. *)
Theorem purchased_views_split_all (f : Filters) (catalog : list Track) :
  let all := _populate_table catalog (set_current_purchased ALL_PURCHASED f) in
  let yes := _populate_table catalog (set_current_purchased PURCHASED_TRUE f) in
  let no := _populate_table catalog (set_current_purchased PURCHASED_FALSE f) in
  yes.1 = filter (fun row => truthy (t_purchased row) = true) all.1
  ∧ no.1 = filter (fun row => truthy (t_purchased row) = false) all.1
  ∧ (yes.2 + no.2)%nat = all.2.
Proof.
  cbn zeta. rewrite !populate_table_matches. cbn [fst snd].
  assert (forall (l : list Track),
            filter (fun row =>
                      matches (set_current_purchased PURCHASED_TRUE f) row
                      = true) l
            = filter (fun row => truthy (t_purchased row) = true)
                (filter (fun row =>
                           matches (set_current_purchased ALL_PURCHASED f) row
                           = true) l)) as Hyes.
  { intros l. rewrite list_filter_filter. apply list_filter_iff. intros row.
    unfold matches, _matches_purchased. simpl.
    destruct (truthy (t_purchased row)); rewrite ?andb_true_r, ?andb_false_r;
      simpl; rewrite ?andb_false_r; intuition congruence. }
  assert (forall (l : list Track),
            filter (fun row =>
                      matches (set_current_purchased PURCHASED_FALSE f) row
                      = true) l
            = filter (fun row => truthy (t_purchased row) = false)
                (filter (fun row =>
                           matches (set_current_purchased ALL_PURCHASED f) row
                           = true) l)) as Hno.
  { intros l. rewrite list_filter_filter. apply list_filter_iff. intros row.
    unfold matches, _matches_purchased. simpl.
    destruct (truthy (t_purchased row)); rewrite ?andb_true_r, ?andb_false_r;
      simpl; rewrite ?andb_false_r; intuition congruence. }
  split; [apply Hyes|]. split; [apply Hno|].
  rewrite Hyes, Hno.
  generalize (filter (fun row =>
                        matches (set_current_purchased ALL_PURCHASED f) row
                        = true) catalog).
  intros l. induction l as [|row l IH]; [done|].
  destruct (truthy (t_purchased row)) eqn:Hp.
  - rewrite filter_cons_True, filter_cons_False by congruence. simpl. lia.
  - rewrite filter_cons_False, filter_cons_True by congruence. simpl. lia.
Qed.

(** ** The title search *)

Lemma isspace_lower_char (c : ascii) : isspace (lower_char c) = isspace c.
Proof.
  destruct c as [b0 b1 b2 b3 b4 b5 b6 b7].
  destruct b0, b1, b2, b3, b4, b5, b6, b7; reflexivity.
Qed.

Lemma lstrip_lower (s : string) : lstrip (lower s) = lower (lstrip s).
Proof.
  induction s as [|c s IH]; simpl; [done|].
  rewrite isspace_lower_char. by destruct (isspace c).
Qed.

Lemma rstrip_lower (s : string) : rstrip (lower s) = lower (rstrip s).
Proof.
  induction s as [|c s IH]; simpl; [done|].
  rewrite IH, isspace_lower_char.
  destruct (rstrip s); simpl; [by destruct (isspace c)|done].
Qed.

Lemma strip_lower (s : string) : strip (lower s) = lower (strip s).
Proof. unfold strip. by rewrite lstrip_lower, rstrip_lower. Qed.

Lemma lower_nil_iff (s : string) : lower s = "" <-> s = "".
Proof. by destruct s. Qed.

Lemma rstrip_idemp (s : string) : rstrip (rstrip s) = rstrip s.
Proof.
  induction s as [|c s IH]; simpl; [done|].
  destruct (rstrip s) as [|c' r] eqn:Hr.
  - destruct (isspace c) eqn:Hc; simpl; [done|]. by rewrite Hc.
  - remember (String c' r) as t. simpl. rewrite IH. by subst t.
Qed.

Lemma strip_idemp (s : string) : strip (strip s) = strip s.
Proof.
  destruct (strip_head s) as [Hs|(c & r & Hs & Hc)]; [by rewrite Hs|].
  unfold strip at 1. rewrite Hs. simpl lstrip. rewrite Hc, <- Hs.
  unfold strip. apply rstrip_idemp.
Qed.

(** X25: the title search ignores case and the whitespace around the
    query: two titles that differ only in the case of their letters, and
    two queries that do, give the same answer, and so do a query and the
    same query stripped; a blank query matches every row, and a row with a
    null title matches no other query. *)
Theorem title_search_ignores_case :
  (forall title title' query query',
     lower title = lower title' -> lower query = lower query' ->
     _matches_track_name (Some title) query
     = _matches_track_name (Some title') query')
  ∧ (forall title query,
       _matches_track_name title (strip query)
       = _matches_track_name title query)
  ∧ (forall title query, strip query = "" ->
       _matches_track_name title query = true)
  ∧ (forall query, _matches_track_name None query = true -> strip query = "").
Proof.
  split; [|split; [|split]].
  - intros t t' q q' Ht Hq. unfold _matches_track_name.
    rewrite <- !strip_lower, Hq, Ht. done.
  - intros title q. unfold _matches_track_name. by rewrite strip_idemp.
  - intros title q Hq. unfold _matches_track_name. by rewrite Hq.
  - intros q. unfold _matches_track_name.
    destruct (decide (lower (strip q) = "")) as [Heq|]; [|done].
    intros _. by apply lower_nil_iff.
Qed.

Lemma title_search_ignores_case_witness :
  _matches_track_name (Some "Night Drive") "DRIVE"
  = _matches_track_name (Some "NIGHT DRIVE") "drive"
  ∧ _matches_track_name None "   " = true
  ∧ strip "" = "".
Proof.
  destruct title_search_ignores_case as (Hcase & _ & Hblank & Hnull).
  split; [apply Hcase; vm_compute; reflexivity|].
  split; [apply Hblank; vm_compute; reflexivity|].
  apply Hnull. vm_compute. reflexivity.
Defined.

(** ** The playlist options *)

Lemma option_names_inner (names : list string) (acc : gset string) x :
  x ∈ fold_left
        (fun playlists name =>
           let normalized := strip name in
           if decide (normalized ≠ "" ∧ lower normalized ≠ "liked")
           then {[normalized]} ∪ playlists else playlists)
        names acc
  <-> x ∈ acc
      ∨ (lower x ≠ "liked"
         ∧ x ∈ strip <$> filter (fun name => strip name ≠ "") names).
Proof.
  revert acc. induction names as [|n names IH]; intros acc.
  - simpl. rewrite elem_of_nil. tauto.
  - cbn [fold_left]. rewrite IH. cbn zeta.
    destruct (decide (strip n = "")) as [Hn|Hn].
    + rewrite decide_False by tauto. by rewrite filter_cons_False by tauto.
    + rewrite filter_cons_True by done. rewrite fmap_cons, elem_of_cons.
      destruct (decide (lower (strip n) = "liked")) as [Hl|Hl].
      * rewrite decide_False by tauto. split; [tauto|].
        intros [?|[? [->|?]]]; tauto.
      * rewrite decide_True by tauto. rewrite elem_of_union, elem_of_singleton.
        split; [|tauto]. intros [[->|?]|?]; tauto.
Qed.

Lemma option_names_outer (catalog : list Track) (acc : gset string) x :
  x ∈ fold_left
        (fun playlists row =>
           fold_left
             (fun playlists name =>
                let normalized := strip name in
                if decide (normalized ≠ "" ∧ lower normalized ≠ "liked")
                then {[normalized]} ∪ playlists else playlists)
             (split "," (t_playlists row)) playlists)
        catalog acc
  <-> x ∈ acc
      ∨ (lower x ≠ "liked"
         ∧ ∃ row, row ∈ catalog ∧ x ∈ labels (t_playlists row)).
Proof.
  revert acc. induction catalog as [|row catalog IH]; intros acc.
  - simpl. split; [tauto|]. intros [?|[_ (? & Hin & _)]]; [done|].
    by apply elem_of_nil in Hin.
  - cbn [fold_left]. rewrite IH, option_names_inner. fold (labels (t_playlists row)).
    split.
    + intros [[?|[? ?]]|[? (r & ? & ?)]]; [by left|right..].
      * split; [done|]. exists row. split; [apply list_elem_of_here|done].
      * split; [done|]. exists r. split; [by apply list_elem_of_further|done].
    + intros [?|[? (r & [->|?]%elem_of_cons & ?)]]; [tauto|tauto|].
      right. split; [done|]. by exists r.
Qed.

(** X26: the names offered in the playlist dropdown are the labels the
    playlist filter can match, ["liked"] in any case left out: a name
    other than the "all" value is offered exactly when its lower-case form
    is not ["liked"] and the filter set to it selects at least one row of
    the catalog. *)
Theorem playlist_options_select_rows (catalog : list Track) (name : string) :
  name ≠ ALL_PLAYLISTS ->
  name ∈ playlist_option_names catalog
  <-> lower name ≠ "liked"
      ∧ ∃ row, row ∈ catalog
               ∧ _in_playlist (Some (t_playlists row)) name = true.
Proof.
  intros Hne. unfold playlist_option_names. rewrite option_names_outer.
  rewrite elem_of_empty. split.
  - intros [[]|[Hl (row & Hrow & Hin)]]. split; [done|]. exists row.
    split; [done|]. by apply in_playlist_labels.
  - intros [Hl (row & Hrow & Hin)]. right. split; [done|]. exists row.
    split; [done|]. by apply in_playlist_labels in Hin.
Qed.

Lemma playlist_options_select_rows_witness :
  "Deep House" ∈ playlist_option_names sample_prior
  <-> lower "Deep House" ≠ "liked"
      ∧ ∃ row, row ∈ sample_prior
               ∧ _in_playlist (Some (t_playlists row)) "Deep House" = true.
Proof. by apply playlist_options_select_rows. Defined.

(** ** Column widths *)

Lemma is_Some_dict_get_set {V : Type} c k (v : V) (d : dict V) :
  is_Some (dict_get c d) -> is_Some (dict_get c (dict_set k v d)).
Proof.
  intros H. destruct (decide (k = c)) as [->|Hne].
  - rewrite dict_get_set_eq. by eexists.
  - by rewrite dict_get_set_ne.
Qed.

Lemma widths_of_visible_columns (visible : list string) (acc : dict nat) c :
  c ∈ visible ∨ is_Some (dict_get c acc) ->
  is_Some (dict_get c
             (fold_left (fun widths column => dict_set column COLUMN_WIDTH widths)
                visible acc)).
Proof.
  revert acc. induction visible as [|x visible IH]; intros acc; simpl.
  - intros [Hin|?]; [by apply elem_of_nil in Hin|done].
  - intros [[->|Hin]%elem_of_cons|Hacc]; apply IH.
    + right. rewrite dict_get_set_eq. by eexists.
    + by left.
    + right. by apply is_Some_dict_get_set.
Qed.

(** X27: [_build_column_widths] gives every visible column a width, and
    gives the title column a width of at least 7 that leaves two cells of
    room beyond the longest title of the catalog. *)
Theorem column_widths_fit_titles (visible_columns : list string) (d : DataFrame) :
  (forall column, column ∈ visible_columns ->
     is_Some (dict_get column (_build_column_widths visible_columns d)))
  ∧ ∃ width,
      dict_get "title" (_build_column_widths visible_columns d) = Some width
      ∧ 7 ≤ width
      ∧ forall row title,
          row ∈ rows d -> t_title row = Some title ->
          String.length title + 2 ≤ width.
Proof.
  unfold _build_column_widths. cbn zeta.
  set (w0 := fold_left _ visible_columns []).
  set (m := max_list _).
  set (w3 := dict_set "price" 8 _).
  assert (forall c, c ∈ visible_columns -> is_Some (dict_get c w3)) as Hvis.
  { intros c Hc. unfold w3. do 3 apply is_Some_dict_get_set.
    apply widths_of_visible_columns. by left. }
  assert (dict_get "title" w3 = Some (m + 2)) as Htitle.
  { unfold w3. rewrite !dict_get_set_ne by done. apply dict_get_set_eq. }
  assert (5 ≤ m
          ∧ forall row title, row ∈ rows d -> t_title row = Some title ->
              String.length title ≤ m) as [H5 Hmax].
  { split.
    - apply max_list_elem_of_le, list_elem_of_here.
    - intros row title Hrow Ht. apply max_list_elem_of_le.
      apply list_elem_of_further, list_elem_of_omap. exists row.
      split; [done|]. by rewrite Ht. }
  split.
  - intros c Hc. destruct (decide _); [|by apply Hvis].
    by apply is_Some_dict_get_set, Hvis.
  - exists (m + 2). split.
    + destruct (decide _); [|done]. by rewrite dict_get_set_ne.
    + split; [lia|]. intros row title Hrow Ht.
      pose proof (Hmax row title Hrow Ht). lia.
Qed.

Lemma column_widths_fit_titles_witness :
  (forall column, column ∈ ["title"; "price"] ->
     is_Some (dict_get column
                (_build_column_widths ["title"; "price"] (df sample_app))))
  ∧ ∃ width,
      dict_get "title" (_build_column_widths ["title"; "price"] (df sample_app))
      = Some width
      ∧ 7 ≤ width
      ∧ forall row title,
          row ∈ rows (df sample_app) -> t_title row = Some title ->
          String.length title + 2 ≤ width.
Proof. apply column_widths_fit_titles. Defined.

(** ** An edit and the pass after it *)

Lemma edited_target_owned self track_id purchased price url r :
  r ∈ rows (df (_apply_track_edits self track_id (Some (purchased, price, url)))) ->
  t_id r = track_id ->
  owned_of r = mkOwned price (Some purchased) url.
Proof.
  rewrite apply_track_edits_prepare. cbn [df rows with_column].
  intros (a & -> & _)%list_elem_of_fmap. unfold edit_row.
  destruct (bool_decide_reflect (t_id a = track_id)); [done|].
  simpl. done.
Qed.

Lemma same_remote_ids l l' :
  Forall2 same_remote l l' -> t_id <$> l' = t_id <$> l.
Proof.
  induction 1 as [|a b l l' Hab _ IH]; [done|].
  rewrite !fmap_cons, IH. f_equal. apply Hab.
Qed.

Lemma edit_keeps_ids self track_id purchased price url :
  t_id <$> rows (df (_apply_track_edits self track_id
                       (Some (purchased, price, url))))
  = t_id <$> rows (df self).
Proof.
  rewrite apply_track_edits_prepare. cbn [df rows with_column].
  rewrite <- list_fmap_compose.
  rewrite <- (same_remote_ids _ _ (prepare_frame_same_remote (df self))).
  apply Forall_fmap_ext_1, Forall_forall. intros a _.
  apply edit_row_same_remote.
Qed.

(** X28: what an edit leaves for the next pass. When a track of a
    catalog keyed by [id] is edited and the next reconciliation pass reads
    the file the edit wrote, the record the pass writes for that track has
    exactly the edited [purchased], [price] and [purchase_url] if the edit
    has any owned field off its default; if the edit sets all three to
    their defaults, the record has [purchased] false, no price, and the
    purchase URL of the remote record, so a URL the user cleared comes
    back from the remote. *)
Theorem edit_then_pass self track_id purchased price url liked_pages
  playlist_pages catalog r :
  NoDup (t_id <$> rows (df self)) ->
  track_id ∈ t_id <$> rows (df self) ->
  create_new_df
    (Some (rows (tracks_file
                   (_apply_track_edits self track_id
                      (Some (purchased, price, url))))))
    liked_pages playlist_pages = Ok catalog ->
  r ∈ catalog ->
  t_id r = track_id ->
  ∃ o, first_observation track_id (observations liked_pages playlist_pages)
       = Some o
       ∧ owned_of r
         = if all_default (mkOwned price (Some purchased) url)
           then mkOwned None (Some false) (r_purchase_url (snd o))
           else mkOwned price (Some purchased) url.
Proof.
  intros Hnd Hin.
  pose proof (edit_keeps_ids self track_id purchased price url) as Hsame.
  set (self' := _apply_track_edits self track_id _) in *.
  assert (tracks_file self' = df self') as -> by reflexivity.
  rewrite <- Hsame in Hnd, Hin.
  apply list_elem_of_fmap in Hin as (x & Hx & Hxin).
  intros (s & Hs & Hok & ->)%create_new_df_Ok Hr Hid.
  apply (dict_ok_values_get _ _ Hok) in Hr. rewrite Hid, Hx in Hr.
  destruct (reconciled_owned _ _ _ _ _ Hnd Hxin Hs Hr) as (o & Ho & Howned).
  exists o. rewrite Hx. split; [done|].
  by rewrite (edited_target_owned _ _ _ _ _ _ Hxin (eq_sym Hx)) in Howned.
Qed.

Lemma edit_then_pass_witness :
  ∃ o, first_observation "Y"
         (observations [[sample_track "Y" (Some "https://buy/y")]] [])
       = Some o
       ∧ owned_of (sample_row "Y" false None (Some "https://buy/y") "liked")
         = if all_default (mkOwned None (Some false) None)
           then mkOwned None (Some false) (r_purchase_url (snd o))
           else mkOwned None (Some false) None.
Proof.
  apply (edit_then_pass sample_app "Y" false None None
           [[sample_track "Y" (Some "https://buy/y")]] []
           [sample_row "Y" false None (Some "https://buy/y") "liked"]
           (sample_row "Y" false None (Some "https://buy/y") "liked")).
  - by_compute.
  - by_compute.
  - vm_compute. reflexivity.
  - elem_of_list.
  - reflexivity.
Defined.
